(** * kubectl plugins edit-deploy and edit-cr: a shallow embedding

    The repository holds three generations of a kubectl plugin that edits
    a Deployment (src/unnamed/part_001, src/unnamed/part_000 and
    src/edit_deploy/kubectl-edit_deploy.go) and one plugin that appends a
    rule to a ClusterRole (src/edit_cr/kubectl-edit_cr.go).  Every one of
    them is the same read-modify-write loop against the API server, run
    under client-go's [retry.RetryOnConflict].

    The API server, the kubeconfig loader and client-go's retry helper are
    collaborators outside the repository.  They are modelled first
    (modules [Go], [Cluster], [Retry], [Clientcmd], [Genericclioptions],
    [Cobra], [Goflag]); the four programs follow, one module per source
    file, and then the properties, one module of facts per program. *)

From Stdlib Require Import ZArith Ascii String.
From stdpp Require Import base option list strings gmap fin_maps.

Local Open Scope string_scope.
Local Open Scope list_scope.
Local Open Scope Z_scope.

(** ** Go values the programs handle *)

Module Go.

(** [metav1.StatusReason]: the reasons the programs or the retry helper
    can tell apart, and one for everything else. *)
Inductive StatusReason :=
| StatusReasonNotFound
| StatusReasonConflict
| StatusReasonInvalid
| StatusReasonUnknown.

(** A Go [error] value.  [StatusError] is the API machinery's typed
    error, [errorString] is what [fmt.Errorf] without a wrapping verb (and
    [errors.New]) builds, and [ErrWaitTimeout] is the sentinel of
    [k8s.io/apimachinery/pkg/util/wait], compared by identity. *)
Inductive error :=
| StatusError (reason : StatusReason) (message : string)
| errorString (s : string)
| ErrWaitTimeout.

(** The [Error()] method. *)
Definition Error (e : error) : string :=
  match e with
  | StatusError _ m => m
  | errorString s => s
  | ErrWaitTimeout => "timed out waiting for the condition"
  end.

(** [fmt.Errorf(format)] for a format without verbs. *)
Definition Errorf (format : string) : error := errorString format.

(** [fmt.Errorf(prefix + "%v", err)]: the argument is rendered to text, so
    the result is a plain error that no longer carries [err]'s type. *)
Definition Errorf_v (prefix : string) (err : error) : error :=
  errorString (prefix +:+ Error err).

(** [errors.IsConflict] and [errors.IsNotFound] of
    [k8s.io/apimachinery/pkg/api/errors]. *)
Definition IsConflict (e : error) : bool :=
  match e with StatusError StatusReasonConflict _ => true | _ => false end.

Definition IsNotFound (e : error) : bool :=
  match e with StatusError StatusReasonNotFound _ => true | _ => false end.

(** The outcome of a Go call that returns [(T, error)] or only [error]
    ([T := unit]) and that may also stop the process with a run-time
    panic (a nil pointer dereference). *)
Inductive result (A : Type) :=
| Ok (a : A)
| Err (e : error)
| Panic.
Global Arguments Ok {A} a.
Global Arguments Err {A} e.
Global Arguments Panic {A}.

(** [int32] values are kept as integers; the programs only compare and
    copy them, so no operation can leave the range. *)
Definition int32 := Z.
Definition int32_ok (z : Z) : Prop := -2147483648 <= z <= 2147483647.

(** [strings.Split(s, sep)] for a one-byte separator, the only way the
    programs call it: the pieces between the separators, in order; a
    string without separator is returned as its only piece. *)
Fixpoint Split (s : string) (sep : ascii) : list string :=
  match s with
  | EmptyString => [EmptyString]
  | String c rest =>
      if Ascii.eqb c sep then EmptyString :: Split rest sep
      else match Split rest sep with
           | piece :: pieces => String c piece :: pieces
           | [] => [String c EmptyString]
           end
  end.

(** [len(s)] of a string, as an integer. *)
Definition len (s : string) : Z := Z.of_nat (String.length s).

End Go.
Export Go.

(** ** The API server *)

Module Cluster.

(** [metav1.ObjectMeta], the part the server and the programs use.  The
    resource version is an opaque token; a counter stands for it. *)
Record ObjectMeta := {
  Name : string;
  Namespace : string;
  ResourceVersion : N;
}.

(** Objects the server stores: anything with metadata ([metav1.Object]). *)
Class Resource (T : Type) := {
  meta : T → ObjectMeta;
  with_meta : ObjectMeta → T → T;
}.

(** What other clients and the network do between two requests of the
    program.  One event is consumed when a request arrives. *)
Inductive Event (T : Type) :=
| Quiet
| Written (ns name : string) (x : T)
| Removed (ns name : string)
| Outage (reason : StatusReason) (message : string).
Global Arguments Quiet {T}.
Global Arguments Written {T} ns name x.
Global Arguments Removed {T} ns name.
Global Arguments Outage {T} reason message.

(** Requests the program sent, oldest first. *)
Inductive Call :=
| CallGet (ns name : string)
| CallUpdate (ns name : string).

Record World (T : Type) := {
  objects : gmap (string * string) T;
  pending : list (Event T);
  calls : list Call;
}.
Global Arguments objects {T} w.
Global Arguments pending {T} w.
Global Arguments calls {T} w.

Section Server.
Context {T : Type} `{Resource T}.

Definition version_of (o : option T) : N :=
  match o with
  | Some cur => ResourceVersion (meta cur)
  | None => 0%N
  end.

(** [x] as the server stores it under the key: with the version that
    follows the stored one. *)
Definition stamped (ns name : string) (x : T) (m : gmap (string * string) T) : T :=
  with_meta {| Name := name; Namespace := ns;
               ResourceVersion := N.succ (version_of (m !! (ns, name))) |} x.

Definition store (ns name : string) (x : T) (m : gmap (string * string) T)
  : gmap (string * string) T :=
  <[(ns, name) := stamped ns name x m]> m.

Definition happen (ev : Event T) (m : gmap (string * string) T)
  : gmap (string * string) T :=
  match ev with
  | Quiet | Outage _ _ => m
  | Written ns name x => store ns name x m
  | Removed ns name => delete (ns, name) m
  end.

Definition fault (ev : Event T) : option error :=
  match ev with
  | Outage reason message => Some (StatusError reason message)
  | _ => None
  end.

(** A request arrives: the next event has happened by then, and the
    request is logged. *)
Definition arrive (c : Call) (w : World T) : World T * option error :=
  match pending w with
  | [] => ({| objects := objects w; pending := []; calls := calls w ++ [c] |}, None)
  | ev :: evs =>
      ({| objects := happen ev (objects w); pending := evs;
          calls := calls w ++ [c] |}, fault ev)
  end.

Definition conflict_message : string :=
  "the object has been modified; please apply your changes to the latest version and try again".

(** [Get] of a typed client bound to namespace [ns]. *)
Definition Get (ns name : string) (w : World T) : World T * (error + T) :=
  let '(w1, f) := arrive (CallGet ns name) w in
  match f with
  | Some e => (w1, inl e)
  | None =>
      match objects w1 !! (ns, name) with
      | Some x => (w1, inr x)
      | None => (w1, inl (StatusError StatusReasonNotFound (name +:+ " not found")))
      end
  end.

(** [Update] of a typed client bound to namespace [ns]: the write is
    accepted only when it carries the stored resource version. *)
Definition Update (ns : string) (x : T) (w : World T) : World T * (error + T) :=
  let name := Name (meta x) in
  let '(w1, f) := arrive (CallUpdate ns name) w in
  match f with
  | Some e => (w1, inl e)
  | None =>
      match objects w1 !! (ns, name) with
      | None => (w1, inl (StatusError StatusReasonNotFound (name +:+ " not found")))
      | Some cur =>
          if N.eqb (ResourceVersion (meta cur)) (ResourceVersion (meta x)) then
            ({| objects := store ns name x (objects w1);
                pending := pending w1; calls := calls w1 |},
             inr (stamped ns name x (objects w1)))
          else
            (w1, inl (StatusError StatusReasonConflict conflict_message))
      end
  end.

(** The world after [n] request slots in which the program sent
    nothing that the server acted on: only the events happened. *)
Fixpoint undisturbed (n : nat) (m : gmap (string * string) T) (evs : list (Event T))
  : gmap (string * string) T * list (Event T) :=
  match n with
  | O => (m, evs)
  | S k =>
      match evs with
      | [] => (m, [])
      | ev :: evs' => undisturbed k (happen ev m) evs'
      end
  end.

(** Every object is stored under its own name and namespace. *)
Definition well_keyed (m : gmap (string * string) T) : Prop :=
  ∀ ns name x, m !! (ns, name) = Some x →
    Name (meta x) = name ∧ Namespace (meta x) = ns.

(** Nothing is left to happen between the requests to come. *)
Definition quiet (w : World T) : Prop := pending w = [].
End Server.

End Cluster.
Export Cluster.

(** ** client-go's retry helper *)

Module Retry.

(** [wait.Backoff].  [Factor] (1.0) and [Jitter] (0.1) only shape the
    sleep between two attempts and are left out; [Duration] is in
    milliseconds. *)
Record Backoff := {
  Steps : nat;
  Duration : nat;
}.

(** [retry.DefaultRetry], as the programs quote it above their loops. *)
Definition DefaultRetry : Backoff := {| Steps := 5; Duration := 10 |}.

Section Loop.
Context {St : Type}.

(** [wait.ExponentialBackoff]: run [condition] until it reports done or
    fails, at most [steps] times, sleeping in between. *)
Fixpoint ExponentialBackoff (steps : nat)
    (condition : St → St * (bool * option error)) (s : St) : St * option error :=
  match steps with
  | O => (s, Some ErrWaitTimeout)
  | S k =>
      let '(s1, (ok, err)) := condition s in
      match err with
      | Some e => (s1, Some e)
      | None => if ok then (s1, None) else ExponentialBackoff k condition s1
      end
  end.
End Loop.

Section OnError.
Context {W : Type}.

(** The condition [retry.OnError] hands to the backoff loop; the
    variable [lastErr] it closes over travels with the state. *)
Definition condition (retriable : error → bool) (fn : W → W * option error)
    (s : W * option error) : (W * option error) * (bool * option error) :=
  let '(w, lastErr) := s in
  let '(w1, err) := fn w in
  match err with
  | None => ((w1, lastErr), (true, None))
  | Some e =>
      if retriable e then ((w1, Some e), (false, None))
      else ((w1, lastErr), (false, Some e))
  end.

Definition OnError (backoff : Backoff) (retriable : error → bool)
    (fn : W → W * option error) (w : W) : W * option error :=
  let '((w1, lastErr), err) :=
    ExponentialBackoff (Steps backoff) (condition retriable fn) (w, None) in
  match err with
  | Some ErrWaitTimeout => (w1, lastErr)
  | _ => (w1, err)
  end.

Definition RetryOnConflict (backoff : Backoff) (fn : W → W * option error)
    (w : W) : W * option error :=
  OnError backoff IsConflict fn w.

(** The value of [lastErr] after some attempts that left [last], when
    it was [l0] before them. *)
Definition carried (l0 last : option error) : option error :=
  match last with
  | Some e => Some e
  | None => l0
  end.

(** [k] attempts in a row, each ending in a retriable error, lead from
    [w] to [w'], the last of the errors being [last]. *)
Inductive retried (retriable : error → bool) (fn : W → W * option error)
  : nat → W → W → option error → Prop :=
| retried_O w : retried retriable fn O w w None
| retried_S k w w1 w2 last e :
    retried retriable fn k w w1 last →
    fn w1 = (w2, Some e) →
    retriable e = true →
    retried retriable fn (S k) w w2 (Some e).

(** The same, computed: the world and the last error after [k]
    retried attempts, if the first [k] attempts are all retried. *)
Fixpoint retry_run (retriable : error → bool) (fn : W → W * option error)
    (k : nat) (w : W) : option (W * option error) :=
  match k with
  | O => Some (w, None)
  | S k' =>
      match retry_run retriable fn k' w with
      | Some (w1, _) =>
          match fn w1 with
          | (w2, Some e) => if retriable e then Some (w2, Some e) else None
          | (_, None) => None
          end
      | None => None
      end
  end.
End OnError.

End Retry.

(** ** The loop the four programs share

    Each [Run] hands [RetryOnConflict] a function literal of one shape:
    fetch the object, assign to the fetched copy, send it back.  The
    shape is named here so that it is reasoned about once; the programs
    below spell their own literals out. *)

Module Updater.
Import Retry.
Section Updater.
Context {T : Type} `{Resource T}.

Definition attempt (ns name : string) (f : T → T) (w : World T)
  : World T * option error :=
  let '(w1, got) := Get ns name w in
  match got with
  | inl getErr =>
      (w1, Some (Errorf_v "failed to get latest version fo Deployment: " getErr))
  | inr result =>
      let '(w2, updated) := Update ns (f result) w1 in
      match updated with
      | inl updateErr => (w2, Some updateErr)
      | inr _ => (w2, None)
      end
  end.

Definition run (ns name : string) (f : T → T) (w : World T)
  : World T * option error :=
  let '(w1, retryErr) := RetryOnConflict DefaultRetry (attempt ns name f) w in
  match retryErr with
  | Some e => (w1, Some (Errorf_v "update failed: " e))
  | None => (w1, None)
  end.
End Updater.
End Updater.

(** ** The kubeconfig loader and the generic CLI options *)

Module Clientcmd.

(** [api.Context] and [api.Config] of k8s.io/client-go/tools/clientcmd. *)
Record Context := { Namespace : string }.

Record Config := {
  Contexts : gmap string Context;
  CurrentContext : string;
}.

End Clientcmd.

Module Genericclioptions.

(** [genericclioptions.ConfigFlags]: the value of the --namespace flag
    (empty when it is not given) and what the loaders answer on this
    machine. *)
Record ConfigFlags := {
  Namespace : string;
  restConfig : option error;
  rawConfig : error + Clientcmd.Config;
  newForConfig : option error;
}.

Definition ToRESTConfig (f : ConfigFlags) : error + unit :=
  match restConfig f with Some e => inl e | None => inr tt end.

Definition RawConfig (f : ConfigFlags) : error + Clientcmd.Config := rawConfig f.

(** [kubernetes.NewForConfig] on the configuration of [f]. *)
Definition NewForConfig (f : ConfigFlags) (config : unit) : error + unit :=
  match newForConfig f with Some e => inl e | None => inr tt end.

End Genericclioptions.

(** ** Sequencing calls that change the world, may fail and may panic *)

Module Exec.

Definition M (W A : Type) : Type := W → W * result A.

Definition ret {W A} (a : A) : M W A := fun w => (w, Ok a).
Definition fail {W A} (e : error) : M W A := fun w => (w, Err e).
Definition panic {W A} : M W A := fun w => (w, Panic).

Definition bind {W A B} (m : M W A) (k : A → M W B) : M W B :=
  fun w =>
    let '(w1, r) := m w in
    match r with
    | Ok a => k a w1
    | Err e => (w1, Err e)
    | Panic => (w1, Panic)
    end.

(** A call returning [(T, error)]. *)
Definition call {W A} (f : W → W * (error + A)) : M W A :=
  fun w =>
    let '(w1, r) := f w in
    match r with
    | inl e => (w1, Err e)
    | inr a => (w1, Ok a)
    end.

(** A call returning only [error]. *)
Definition check {W} (f : W → W * option error) : M W unit :=
  fun w =>
    let '(w1, r) := f w in
    match r with
    | Some e => (w1, Err e)
    | None => (w1, Ok tt)
    end.

Definition pure {W A} (r : error + A) : M W A := call (fun w => (w, r)).

(** [*p] for a pointer that may be nil. *)
Definition deref {W A} (p : option A) : M W A :=
  match p with
  | Some a => ret a
  | None => panic
  end.

Declare Scope exec_scope.
Delimit Scope exec_scope with exec.
Notation "'let*' x ':=' m 'in' k" := (bind m (fun x => k))
  (at level 10, x name, m at level 100, k at level 200) : exec_scope.
Notation "'do' m 'then' k" := (bind m (fun _ => k))
  (at level 10, m at level 100, k at level 200) : exec_scope.

End Exec.

(** ** apps/v1 Deployments *)

Module Apps.

(** [appsv1.DeploymentSpec]: the two pointer fields the programs touch. *)
Record DeploymentSpec := {
  Replicas : option int32;
  RevisionHistoryLimit : option int32;
}.

Record Deployment := {
  ObjectMeta : Cluster.ObjectMeta;
  Spec : DeploymentSpec;
}.

#[global] Instance Deployment_Resource : Resource Deployment := {
  meta := ObjectMeta;
  with_meta m d := {| ObjectMeta := m; Spec := Spec d |};
}.

(** [apiv1.NamespaceDefault]. *)
Definition NamespaceDefault : string := "default".

End Apps.

(** ** cobra and the flag packages *)

Module Cobra.

(** [Int32Var(p, name, value, usage)] followed by parsing: the variable
    holds the flag's value when the flag was given, otherwise [value]. *)
Definition Int32Var (value : int32) (given : option int32) : int32 :=
  match given with
  | Some v => v
  | None => value
  end.

Definition StringVar (value : string) (given : option string) : string :=
  match given with
  | Some v => v
  | None => value
  end.

(** The exit status of [main]: 1 when [Execute] returns an error, 2 when
    the Go run time stops the process on a panic. *)
Definition exit_status {A} (r : result A) : Z :=
  match r with
  | Ok _ => 0
  | Err _ => 1
  | Panic => 2
  end.

End Cobra.

(** ** src/edit_deploy/kubectl-edit_deploy.go *)

Module EditDeploy.
Import Apps Exec Retry Cobra.
Local Open Scope exec_scope.

Record EditDeployOptions := {
  configFlags : Genericclioptions.ConfigFlags;
  (** the typed client, known by the namespace it is bound to; nil
      until [Complete] has built it *)
  deploymentsClient : option string;
  newReplicas : int32;
  newRhl : int32;
  deploymentName : string;
  args : list string;
}.

Definition set_deploymentsClient (c : option string) (o : EditDeployOptions) :=
  {| configFlags := configFlags o; deploymentsClient := c;
     newReplicas := newReplicas o; newRhl := newRhl o;
     deploymentName := deploymentName o; args := args o |}.
Definition set_newReplicas (n : int32) (o : EditDeployOptions) :=
  {| configFlags := configFlags o; deploymentsClient := deploymentsClient o;
     newReplicas := n; newRhl := newRhl o;
     deploymentName := deploymentName o; args := args o |}.
Definition set_newRhl (n : int32) (o : EditDeployOptions) :=
  {| configFlags := configFlags o; deploymentsClient := deploymentsClient o;
     newReplicas := newReplicas o; newRhl := n;
     deploymentName := deploymentName o; args := args o |}.
Definition set_deploymentName (s : string) (o : EditDeployOptions) :=
  {| configFlags := configFlags o; deploymentsClient := deploymentsClient o;
     newReplicas := newReplicas o; newRhl := newRhl o;
     deploymentName := s; args := args o |}.
Definition set_args (a : list string) (o : EditDeployOptions) :=
  {| configFlags := configFlags o; deploymentsClient := deploymentsClient o;
     newReplicas := newReplicas o; newRhl := newRhl o;
     deploymentName := deploymentName o; args := a |}.

Definition NewEditDeploymentOptions (kube : Genericclioptions.ConfigFlags)
  : EditDeployOptions :=
  {| configFlags := kube; deploymentsClient := None;
     newReplicas := 0; newRhl := 0; deploymentName := ""; args := [] |}.

(** What the user typed after the plugin name, as cobra hands it over:
    the positional arguments and the flags that were given. *)
Record CommandLine := {
  positional : list string;
  replicas : option int32;
  rhl : option int32;
  namespace : option string;
}.

Local Abbreviation W := (World Deployment).

(** Lines 117-129 of [Complete]: the namespace the client is built for.
    Indexing [Contexts] with a name it does not hold yields a nil
    pointer, whose field cannot be read. *)
Definition userSpecifiedNamespace (o : EditDeployOptions)
    (rawconfig : Clientcmd.Config) : M W string :=
  let ns := Genericclioptions.Namespace (configFlags o) in
  let* ns :=
    if len ns =? 0 then
      let* context :=
        deref (Clientcmd.Contexts rawconfig !! Clientcmd.CurrentContext rawconfig) in
      ret (Clientcmd.Namespace context)
    else ret ns in
  if len ns =? 0 then ret "Default" else ret ns.

Definition Complete (o : EditDeployOptions) (args : list string)
  : M W EditDeployOptions :=
  let o := set_args args o in
  let o := match args with
           | a :: _ => set_deploymentName a o
           | [] => o
           end in
  if len (deploymentName o) =? 0 then
    fail (Errorf "deployment name not specified")
  else
    let* config := pure (Genericclioptions.ToRESTConfig (configFlags o)) in
    let* rawconfig := pure (Genericclioptions.RawConfig (configFlags o)) in
    let* clientset := pure (Genericclioptions.NewForConfig (configFlags o) config) in
    let* ns := userSpecifiedNamespace o rawconfig in
    let o := set_deploymentsClient (Some ns) o in
    let* result := call (Get ns (deploymentName o)) in
    let* o :=
      if newReplicas o <=? 0 then
        let* live := deref (Replicas (Spec result)) in ret (set_newReplicas live o)
      else ret o in
    let* o :=
      if newRhl o <? 0 then
        let* live := deref (RevisionHistoryLimit (Spec result)) in ret (set_newRhl live o)
      else ret o in
    ret o.

Definition Validate (o : EditDeployOptions) : option error :=
  if negb (Nat.eqb (length (args o)) 1) then
    Some (Errorf "only one argument is allowed")
  else if newReplicas o <=? 0 then
    Some (Errorf "invalid number of replicas")
  else if newRhl o <? 0 then
    Some (Errorf "invalid value of RevisionHistoryLimit")
  else None.

(** Lines 190-191: the two assignments to the fetched object. *)
Definition mutate (o : EditDeployOptions) (result : Deployment) : Deployment :=
  {| ObjectMeta := ObjectMeta result;
     Spec := {| Replicas := Some (newReplicas o);
                RevisionHistoryLimit := Some (newRhl o) |} |}.

(** The function literal [Run] hands to [RetryOnConflict]. *)
Definition attempt (client : string) (o : EditDeployOptions) (w : W)
  : W * option error :=
  let '(w1, got) := Get client (deploymentName o) w in
  match got with
  | inl getErr =>
      (w1, Some (Errorf_v "failed to get latest version fo Deployment: " getErr))
  | inr result =>
      let '(w2, updated) := Update client (mutate o result) w1 in
      match updated with
      | inl updateErr => (w2, Some updateErr)
      | inr _ => (w2, None)
      end
  end.

Definition Run (o : EditDeployOptions) : M W unit :=
  match deploymentsClient o with
  | None => panic
  | Some client =>
      check (fun w =>
        let '(w1, retryErr) := RetryOnConflict DefaultRetry (attempt client o) w in
        match retryErr with
        | Some e => (w1, Some (Errorf_v "update failed: " e))
        | None => (w1, None)
        end)
  end.

(** The [RunE] closure of [NewCmdEdit]. *)
Definition RunE (o : EditDeployOptions) (args : list string) : M W unit :=
  let* o := Complete o args in
  do check (fun w => (w, Validate o)) then
  Run o.

(** The errors [Complete] and [Validate] make up themselves for a bad
    command line. *)
Definition usage_errors : list error :=
  [ Errorf "deployment name not specified";
    Errorf "only one argument is allowed";
    Errorf "invalid number of replicas";
    Errorf "invalid value of RevisionHistoryLimit" ].

(** [NewCmdEdit] registers the flags and cobra parses the command line
    into them before it calls [RunE]. *)
Definition parsed (kube : Genericclioptions.ConfigFlags) (cl : CommandLine)
  : EditDeployOptions :=
  let o := NewEditDeploymentOptions kube in
  let o := set_newReplicas (Int32Var (newReplicas o) (replicas cl)) o in
  let o := set_newRhl (Int32Var (-1) (rhl cl)) o in
  {| configFlags :=
       {| Genericclioptions.Namespace :=
            StringVar (Genericclioptions.Namespace kube) (namespace cl);
          Genericclioptions.restConfig := Genericclioptions.restConfig kube;
          Genericclioptions.rawConfig := Genericclioptions.rawConfig kube;
          Genericclioptions.newForConfig := Genericclioptions.newForConfig kube |};
     deploymentsClient := deploymentsClient o;
     newReplicas := newReplicas o; newRhl := newRhl o;
     deploymentName := deploymentName o; args := args o |}.

Definition NewCmdEdit (kube : Genericclioptions.ConfigFlags) (cl : CommandLine)
  : M W unit :=
  RunE (parsed kube cl) (positional cl).

Definition main (kube : Genericclioptions.ConfigFlags) (cl : CommandLine) (w : W)
  : W * Z :=
  let '(w1, r) := NewCmdEdit kube cl w in (w1, exit_status r).

(** The setting of a run on an existing Deployment: the
    cluster is quiet, the kubeconfig loads, and the one argument [a] of
    the command line names, in the namespace [ns] the program resolves,
    the stored Deployment [d]. *)
Definition reaches (kube : Genericclioptions.ConfigFlags) (cl : CommandLine)
    (w : W) (ns a : string) (d : Deployment) : Prop :=
  quiet w
  ∧ positional cl = [a] ∧ a ≠ ""
  ∧ Genericclioptions.restConfig kube = None
  ∧ Genericclioptions.newForConfig kube = None
  ∧ (∃ raw, Genericclioptions.rawConfig kube = inr raw
            ∧ (userSpecifiedNamespace (parsed kube cl) raw w).2 = Ok ns)
  ∧ objects w !! (ns, a) = Some d
  ∧ Name (ObjectMeta d) = a.

End EditDeploy.

(** ** src/unnamed/part_001: the first generation, replicas only *)

Module Part001.
Import Apps Exec Retry Cobra.
Local Open Scope exec_scope.

Record EditDeployOptions := {
  configFlags : Genericclioptions.ConfigFlags;
  newReplicas : int32;
  deploymentName : string;
  args : list string;
}.

Definition NewEditDeploymentOptions (kube : Genericclioptions.ConfigFlags)
  : EditDeployOptions :=
  {| configFlags := kube; newReplicas := 0; deploymentName := ""; args := [] |}.

Record CommandLine := {
  positional : list string;
  replicas : option int32;
  namespace : option string;
}.

Local Abbreviation W := (World Deployment).

Definition Complete (o : EditDeployOptions) (args : list string)
  : M W EditDeployOptions :=
  let o := {| configFlags := configFlags o; newReplicas := newReplicas o;
              deploymentName := deploymentName o; args := args |} in
  let o := match args with
           | a :: _ =>
               {| configFlags := configFlags o; newReplicas := newReplicas o;
                  deploymentName := a; args := Part001.args o |}
           | [] => o
           end in
  if len (deploymentName o) =? 0 then
    fail (Errorf "deployment name not specified")
  else ret o.

Definition Validate (o : EditDeployOptions) : option error :=
  if negb (Nat.eqb (length (args o)) 1) then
    Some (Errorf "only one argument is allowed")
  else if newReplicas o <=? 0 then
    Some (Errorf "invalid number of replicas")
  else None.

(** Lines 118-123 of [Run]: no fallback when the context names no
    namespace either. *)
Definition userSpecifiedNamespace (o : EditDeployOptions)
    (rawconfig : Clientcmd.Config) : M W string :=
  let ns := Genericclioptions.Namespace (configFlags o) in
  if len ns =? 0 then
    let* context :=
      deref (Clientcmd.Contexts rawconfig !! Clientcmd.CurrentContext rawconfig) in
    ret (Clientcmd.Namespace context)
  else ret ns.

(** The assignment to the fetched object. *)
Definition mutate (o : EditDeployOptions) (result : Deployment) : Deployment :=
  {| ObjectMeta := ObjectMeta result;
     Spec := {| Replicas := Some (newReplicas o);
                RevisionHistoryLimit := RevisionHistoryLimit (Spec result) |} |}.

Definition attempt (client : string) (o : EditDeployOptions) (w : W)
  : W * option error :=
  let '(w1, got) := Get client (deploymentName o) w in
  match got with
  | inl getErr =>
      (w1, Some (Errorf_v "failed to get latest version fo Deployment: " getErr))
  | inr result =>
      let '(w2, updated) := Update client (mutate o result) w1 in
      match updated with
      | inl updateErr => (w2, Some updateErr)
      | inr _ => (w2, None)
      end
  end.

Definition Run (o : EditDeployOptions) : M W unit :=
  if (0 <? len (deploymentName o)) && (0 <? newReplicas o) then
    let* config := pure (Genericclioptions.ToRESTConfig (configFlags o)) in
    let* rawconfig := pure (Genericclioptions.RawConfig (configFlags o)) in
    let* clientset := pure (Genericclioptions.NewForConfig (configFlags o) config) in
    let* ns := userSpecifiedNamespace o rawconfig in
    check (fun w =>
      let '(w1, retryErr) := RetryOnConflict DefaultRetry (attempt ns o) w in
      match retryErr with
      | Some e => (w1, Some (Errorf_v "update failed: " e))
      | None => (w1, None)
      end)
  else ret tt.

Definition RunE (o : EditDeployOptions) (args : list string) : M W unit :=
  let* o := Complete o args in
  do check (fun w => (w, Validate o)) then
  Run o.

Definition parsed (kube : Genericclioptions.ConfigFlags) (cl : CommandLine)
  : EditDeployOptions :=
  let o := NewEditDeploymentOptions kube in
  {| configFlags :=
       {| Genericclioptions.Namespace :=
            StringVar (Genericclioptions.Namespace kube) (namespace cl);
          Genericclioptions.restConfig := Genericclioptions.restConfig kube;
          Genericclioptions.rawConfig := Genericclioptions.rawConfig kube;
          Genericclioptions.newForConfig := Genericclioptions.newForConfig kube |};
     newReplicas := Int32Var (newReplicas o) (replicas cl);
     deploymentName := deploymentName o; args := args o |}.

Definition NewCmdEdit (kube : Genericclioptions.ConfigFlags) (cl : CommandLine)
  : M W unit :=
  RunE (parsed kube cl) (positional cl).

End Part001.

(** ** src/unnamed/part_000: the second generation *)

(** Go's standard [flag] package, which this generation consults.  Of a
    flag set only the names of the flags that were set through it
    ([actual]) matter here. *)
Module Goflag.

Record FlagSet := {
  name : string;
  actual : list string;
}.

Definition NewFlagSet (name : string) : FlagSet := {| name := name; actual := [] |}.

(** [Visit] calls its argument on every flag of the set that has been
    set; the result lists those flags. *)
Definition Visit (f : FlagSet) : list string := actual f.

End Goflag.

Module Part000.
Import Apps Exec Retry Cobra.
Local Open Scope exec_scope.

Record EditDeployOptions := {
  configFlags : Genericclioptions.ConfigFlags;
  deploymentsClient : option string;
  newReplicas : int32;
  newRhl : int32;
  deploymentName : string;
  args : list string;
}.

Definition set_deploymentsClient (c : option string) (o : EditDeployOptions) :=
  {| configFlags := configFlags o; deploymentsClient := c;
     newReplicas := newReplicas o; newRhl := newRhl o;
     deploymentName := deploymentName o; args := args o |}.
Definition set_newReplicas (n : int32) (o : EditDeployOptions) :=
  {| configFlags := configFlags o; deploymentsClient := deploymentsClient o;
     newReplicas := n; newRhl := newRhl o;
     deploymentName := deploymentName o; args := args o |}.
Definition set_newRhl (n : int32) (o : EditDeployOptions) :=
  {| configFlags := configFlags o; deploymentsClient := deploymentsClient o;
     newReplicas := newReplicas o; newRhl := n;
     deploymentName := deploymentName o; args := args o |}.
Definition set_deploymentName (s : string) (o : EditDeployOptions) :=
  {| configFlags := configFlags o; deploymentsClient := deploymentsClient o;
     newReplicas := newReplicas o; newRhl := newRhl o;
     deploymentName := s; args := args o |}.
Definition set_args (a : list string) (o : EditDeployOptions) :=
  {| configFlags := configFlags o; deploymentsClient := deploymentsClient o;
     newReplicas := newReplicas o; newRhl := newRhl o;
     deploymentName := deploymentName o; args := a |}.

Definition NewEditDeploymentOptions (kube : Genericclioptions.ConfigFlags)
  : EditDeployOptions :=
  {| configFlags := kube; deploymentsClient := None;
     newReplicas := 0; newRhl := 0; deploymentName := ""; args := [] |}.

Record CommandLine := {
  positional : list string;
  replicas : option int32;
  rhl : option int32;
  namespace : option string;
}.

Local Abbreviation W := (World Deployment).

Section Globals.
(** The package variable [flag.CommandLine]. *)
Variable CommandLine_ : Goflag.FlagSet.

Definition isFlagPassed (name : string) : bool :=
  fold_left (fun found f => if String.eqb f name then true else found)
            (Goflag.Visit CommandLine_) false.

Definition userSpecifiedNamespace (o : EditDeployOptions)
    (rawconfig : Clientcmd.Config) : M W string :=
  let ns := Genericclioptions.Namespace (configFlags o) in
  if len ns =? 0 then
    let* context :=
      deref (Clientcmd.Contexts rawconfig !! Clientcmd.CurrentContext rawconfig) in
    ret (Clientcmd.Namespace context)
  else ret ns.

Definition Complete (o : EditDeployOptions) (args : list string)
  : M W EditDeployOptions :=
  let o := set_args args o in
  let o := match args with
           | a :: _ => set_deploymentName a o
           | [] => o
           end in
  if len (deploymentName o) =? 0 then
    fail (Errorf "deployment name not specified")
  else
    let* config := pure (Genericclioptions.ToRESTConfig (configFlags o)) in
    let* rawconfig := pure (Genericclioptions.RawConfig (configFlags o)) in
    let* clientset := pure (Genericclioptions.NewForConfig (configFlags o) config) in
    let* ns := userSpecifiedNamespace o rawconfig in
    let o := set_deploymentsClient (Some ns) o in
    let* result := call (Get ns (deploymentName o)) in
    let* o :=
      if negb (isFlagPassed "replicas") then
        let* live := deref (Replicas (Spec result)) in ret (set_newReplicas live o)
      else ret o in
    let* o :=
      if negb (isFlagPassed "rhl") then
        let* live := deref (RevisionHistoryLimit (Spec result)) in ret (set_newRhl live o)
      else ret o in
    ret o.

Definition Validate (o : EditDeployOptions) : option error :=
  if negb (Nat.eqb (length (args o)) 1) then
    Some (Errorf "only one argument is allowed")
  else if newReplicas o <=? 0 then
    Some (Errorf "invalid number of replicas")
  else if newRhl o <? 0 then
    Some (Errorf "invalid value of RevisionHistoryLimit")
  else None.

(** Line 234: the assignment to the fetched object. *)
Definition mutate (o : EditDeployOptions) (result : Deployment) : Deployment :=
  {| ObjectMeta := ObjectMeta result;
     Spec := {| Replicas := Some (newReplicas o);
                RevisionHistoryLimit := RevisionHistoryLimit (Spec result) |} |}.

Definition attempt (client : string) (o : EditDeployOptions) (w : W)
  : W * option error :=
  let '(w1, got) := Get client (deploymentName o) w in
  match got with
  | inl getErr =>
      (w1, Some (Errorf_v "failed to get latest version fo Deployment: " getErr))
  | inr result =>
      let '(w2, updated) := Update client (mutate o result) w1 in
      match updated with
      | inl updateErr => (w2, Some updateErr)
      | inr _ => (w2, None)
      end
  end.

Definition Run (o : EditDeployOptions) : M W unit :=
  if (0 <? len (deploymentName o)) && (0 <? newReplicas o) then
    let* config := pure (Genericclioptions.ToRESTConfig (configFlags o)) in
    let* rawconfig := pure (Genericclioptions.RawConfig (configFlags o)) in
    let* clientset := pure (Genericclioptions.NewForConfig (configFlags o) config) in
    let* ns := userSpecifiedNamespace o rawconfig in
    check (fun w =>
      let '(w1, retryErr) := RetryOnConflict DefaultRetry (attempt ns o) w in
      match retryErr with
      | Some e => (w1, Some (Errorf_v "update failed: " e))
      | None => (w1, None)
      end)
  else ret tt.

Definition RunE (o : EditDeployOptions) (args : list string) : M W unit :=
  let* o := Complete o args in
  do check (fun w => (w, Validate o)) then
  Run o.
End Globals.

(** cobra parses the command line into the command's own flag set, which
    is a pflag set: the standard package's [CommandLine] is not told. *)
Definition parsed (kube : Genericclioptions.ConfigFlags) (cl : CommandLine)
  : EditDeployOptions :=
  let o := NewEditDeploymentOptions kube in
  let o := set_newReplicas (Int32Var (newReplicas o) (replicas cl)) o in
  let o := set_newRhl (Int32Var (newRhl o) (rhl cl)) o in
  {| configFlags :=
       {| Genericclioptions.Namespace :=
            StringVar (Genericclioptions.Namespace kube) (namespace cl);
          Genericclioptions.restConfig := Genericclioptions.restConfig kube;
          Genericclioptions.rawConfig := Genericclioptions.rawConfig kube;
          Genericclioptions.newForConfig := Genericclioptions.newForConfig kube |};
     deploymentsClient := deploymentsClient o;
     newReplicas := newReplicas o; newRhl := newRhl o;
     deploymentName := deploymentName o; args := args o |}.

Definition NewCmdEdit (CommandLine_ : Goflag.FlagSet)
    (kube : Genericclioptions.ConfigFlags) (cl : CommandLine) : M W unit :=
  RunE CommandLine_ (parsed kube cl) (positional cl).

(** [main] replaces [flag.CommandLine] by a fresh set and executes the
    command. *)
Definition main (kube : Genericclioptions.ConfigFlags) (cl : CommandLine) (w : W)
  : W * Z :=
  let flags := Goflag.NewFlagSet "kubectl-edit_deploy" in
  let '(w1, r) := NewCmdEdit flags kube cl w in (w1, exit_status r).

End Part000.

(** ** rbac/v1 ClusterRoles *)

Module Rbac.

Record PolicyRule := {
  Verbs : list string;
  APIGroups : list string;
  Resources : list string;
}.

Record ClusterRole := {
  ObjectMeta : Cluster.ObjectMeta;
  Rules : list PolicyRule;
}.

#[global] Instance ClusterRole_Resource : Resource ClusterRole := {
  meta := ObjectMeta;
  with_meta m r := {| ObjectMeta := m; Rules := Rules r |};
}.

(** Cluster roles have no namespace: the client addresses them under the
    empty one. *)
Definition NamespaceNone : string := "".

End Rbac.

(** ** src/edit_cr/kubectl-edit_cr.go *)

Module EditCR.
Import Rbac Exec Retry Cobra.
Local Open Scope exec_scope.

Record EditDeployOptions := {
  configFlags : Genericclioptions.ConfigFlags;
  (** nil until [Complete] has built the client *)
  clusterRoleInterface : option unit;
  newVerbs : string;
  newApiGroups : string;
  newResources : string;
  clusterRoleName : string;
  args : list string;
}.

Definition NewEditDeploymentOptions (kube : Genericclioptions.ConfigFlags)
  : EditDeployOptions :=
  {| configFlags := kube; clusterRoleInterface := None;
     newVerbs := ""; newApiGroups := ""; newResources := "";
     clusterRoleName := ""; args := [] |}.

Record CommandLine := {
  positional : list string;
  verbs : option string;
  groups : option string;
  resources : option string;
}.

Local Abbreviation W := (World ClusterRole).

Definition Complete (o : EditDeployOptions) (args : list string)
  : M W EditDeployOptions :=
  let o := {| configFlags := configFlags o;
              clusterRoleInterface := clusterRoleInterface o;
              newVerbs := newVerbs o; newApiGroups := newApiGroups o;
              newResources := newResources o;
              clusterRoleName := clusterRoleName o; args := args |} in
  let o := match args with
           | a :: _ =>
               {| configFlags := configFlags o;
                  clusterRoleInterface := clusterRoleInterface o;
                  newVerbs := newVerbs o; newApiGroups := newApiGroups o;
                  newResources := newResources o;
                  clusterRoleName := a; args := EditCR.args o |}
           | [] => o
           end in
  if len (clusterRoleName o) =? 0 then
    fail (Errorf "ClusterRole name not specified")
  else
    let* config := pure (Genericclioptions.ToRESTConfig (configFlags o)) in
    let* clientset := pure (Genericclioptions.NewForConfig (configFlags o) config) in
    ret {| configFlags := configFlags o;
           clusterRoleInterface := Some clientset;
           newVerbs := newVerbs o; newApiGroups := newApiGroups o;
           newResources := newResources o;
           clusterRoleName := clusterRoleName o; args := EditCR.args o |}.

Definition Validate (o : EditDeployOptions) : option error :=
  if negb (Nat.eqb (length (args o)) 1) then
    Some (Errorf "only one argument is allowed")
  else if len (newVerbs o) =? 0 then
    Some (Errorf "verb feild is empty")
  else if len (newResources o) =? 0 then
    Some (Errorf "resource feild is empty")
  else None.

(** The rule lines 165-168 build from the three flags. *)
Definition newRule (o : EditDeployOptions) : PolicyRule :=
  let listVerbs := Split (newVerbs o) "," in
  let listResources := Split (newResources o) "," in
  let listApiGroups := Split (newApiGroups o) "," in
  {| Verbs := listVerbs; Resources := listResources; APIGroups := listApiGroups |}.

(** Line 168: the rule is appended to the fetched role's rules. *)
Definition mutate (o : EditDeployOptions) (result : ClusterRole) : ClusterRole :=
  {| ObjectMeta := ObjectMeta result;
     Rules := Rules result ++ [newRule o] |}.

(** The function literal [Run] hands to [RetryOnConflict]. *)
Definition attempt (o : EditDeployOptions) (w : W) : W * option error :=
  let '(w1, got) := Get NamespaceNone (clusterRoleName o) w in
  match got with
  | inl getErr =>
      (w1, Some (Errorf_v "failed to get latest version fo Deployment: " getErr))
  | inr result =>
      let '(w2, updated) := Update NamespaceNone (mutate o result) w1 in
      match updated with
      | inl updateErr => (w2, Some updateErr)
      | inr _ => (w2, None)
      end
  end.

Definition Run (o : EditDeployOptions) : M W unit :=
  match clusterRoleInterface o with
  | None => panic
  | Some _ =>
      check (fun w =>
        let '(w1, retryErr) := RetryOnConflict DefaultRetry (attempt o) w in
        match retryErr with
        | Some e => (w1, Some (Errorf_v "update failed: " e))
        | None => (w1, None)
        end)
  end.

Definition RunE (o : EditDeployOptions) (args : list string) : M W unit :=
  let* o := Complete o args in
  do check (fun w => (w, Validate o)) then
  Run o.

Definition parsed (kube : Genericclioptions.ConfigFlags) (cl : CommandLine)
  : EditDeployOptions :=
  let o := NewEditDeploymentOptions kube in
  {| configFlags := configFlags o;
     clusterRoleInterface := clusterRoleInterface o;
     newVerbs := StringVar (newVerbs o) (verbs cl);
     newApiGroups := StringVar (newApiGroups o) (groups cl);
     newResources := StringVar (newResources o) (resources cl);
     clusterRoleName := clusterRoleName o; args := args o |}.

Definition NewCmdEdit (kube : Genericclioptions.ConfigFlags) (cl : CommandLine)
  : M W unit :=
  RunE (parsed kube cl) (positional cl).

Definition main (kube : Genericclioptions.ConfigFlags) (cl : CommandLine) (w : W)
  : W * Z :=
  let '(w1, r) := NewCmdEdit kube cl w in (w1, exit_status r).

(** The setting of a run on an existing ClusterRole:
    the cluster is quiet, the kubeconfig loads, and the one argument [a]
    names the stored role [r]. *)
Definition reaches (kube : Genericclioptions.ConfigFlags) (cl : CommandLine)
    (w : W) (a : string) (r : ClusterRole) : Prop :=
  quiet w
  ∧ positional cl = [a] ∧ a ≠ ""
  ∧ Genericclioptions.restConfig kube = None
  ∧ Genericclioptions.newForConfig kube = None
  ∧ objects w !! (NamespaceNone, a) = Some r
  ∧ Name (ObjectMeta r) = a.

End EditCR.

(** ** Scenarios

    The worlds and command lines the examples run on: the Deployment
    [web] with 3 replicas and a revision-history limit of 10 in
    namespace team-a, which the active context names. *)

Module Scenario.
Import Apps Rbac.

Definition kube : Genericclioptions.ConfigFlags :=
  {| Genericclioptions.Namespace := "";
     Genericclioptions.restConfig := None;
     Genericclioptions.rawConfig :=
       inr {| Clientcmd.Contexts := {[ "dev" := {| Clientcmd.Namespace := "team-a" |} ]};
              Clientcmd.CurrentContext := "dev" |};
     Genericclioptions.newForConfig := None |}.

(** A kubeconfig whose active context names no namespace. *)
Definition kube_bare : Genericclioptions.ConfigFlags :=
  {| Genericclioptions.Namespace := "";
     Genericclioptions.restConfig := None;
     Genericclioptions.rawConfig :=
       inr {| Clientcmd.Contexts := {[ "dev" := {| Clientcmd.Namespace := "" |} ]};
              Clientcmd.CurrentContext := "dev" |};
     Genericclioptions.newForConfig := None |}.

Definition deployment (ns name : string) (n h : Z) : Deployment :=
  {| Apps.ObjectMeta := {| Name := name; Namespace := ns; ResourceVersion := 7 |};
     Spec := {| Replicas := Some n; RevisionHistoryLimit := Some h |} |}.

Definition web : Deployment := deployment "team-a" "web" 3 10.

Definition cluster : World Deployment :=
  {| objects := {[ ("team-a", "web") := web ]}; pending := []; calls := [] |}.

(** [web] lives in the namespace called default. *)
Definition cluster_default : World Deployment :=
  {| objects := {[ ("default", "web") := deployment "default" "web" 3 10 ]};
     pending := []; calls := [] |}.

(** [web] is scaled to zero. *)
Definition cluster_idle : World Deployment :=
  {| objects := {[ ("team-a", "web") := deployment "team-a" "web" 0 10 ]};
     pending := []; calls := [] |}.

(** Another client writes [web] each time the program is between its
    read and its write. *)
Definition rival : Event Deployment :=
  Written "team-a" "web" (deployment "team-a" "web" 4 10).

Definition contended : World Deployment :=
  {| objects := {[ ("team-a", "web") := web ]};
     pending := [Quiet; Quiet; rival; Quiet; rival; Quiet; rival; Quiet; rival;
                 Quiet; rival];
     calls := [] |}.

(** One rival write, then the server answers the program's second write
    with an error of its own. *)
Definition flaky : World Deployment :=
  {| objects := {[ ("team-a", "web") := web ]};
     pending := [Quiet; rival; Quiet; Outage StatusReasonUnknown "etcdserver: request timed out"];
     calls := [] |}.

(** edit-deploy web --replicas=5 *)
Definition scale_to_5 : EditDeploy.CommandLine :=
  {| EditDeploy.positional := ["web"]; EditDeploy.replicas := Some 5;
     EditDeploy.rhl := None; EditDeploy.namespace := None |}.

(** edit-deploy web extra --replicas=5 *)
Definition two_arguments : EditDeploy.CommandLine :=
  {| EditDeploy.positional := ["web"; "extra"]; EditDeploy.replicas := Some 5;
     EditDeploy.rhl := None; EditDeploy.namespace := None |}.

(** edit-deploy web --rhl=5 *)
Definition limit_to_5 : EditDeploy.CommandLine :=
  {| EditDeploy.positional := ["web"]; EditDeploy.replicas := None;
     EditDeploy.rhl := Some 5; EditDeploy.namespace := None |}.

(** edit-deploy web --replicas=3 *)
Definition scale_to_3 : EditDeploy.CommandLine :=
  {| EditDeploy.positional := ["web"]; EditDeploy.replicas := Some 3;
     EditDeploy.rhl := None; EditDeploy.namespace := None |}.

(** The same command line for the second generation. *)
Definition scale_to_5' : Part000.CommandLine :=
  {| Part000.positional := ["web"]; Part000.replicas := Some 5;
     Part000.rhl := None; Part000.namespace := None |}.

(** The ClusterRole [viewer] with its one rule. *)
Definition viewer : ClusterRole :=
  {| Rbac.ObjectMeta := {| Name := "viewer"; Namespace := ""; ResourceVersion := 3 |};
     Rules := [ {| Verbs := ["get"]; APIGroups := [""]; Resources := ["pods"] |} ] |}.

Definition roles : World ClusterRole :=
  {| objects := {[ ("", "viewer") := viewer ]}; pending := []; calls := [] |}.

(** edit-cr viewer --verbs=list,watch --resources=configmaps --groups= *)
Definition add_configmaps : EditCR.CommandLine :=
  {| EditCR.positional := ["viewer"]; EditCR.verbs := Some "list,watch";
     EditCR.groups := Some ""; EditCR.resources := Some "configmaps" |}.

End Scenario.

(** ** More scenarios *)

Module Drift.
Import Apps Rbac.

(** Between the read of [Complete] and the read of [Run] another client
    raises the revision-history limit of [web] to 20. *)
Definition limit_raised : World Deployment :=
  {| objects := {[ ("team-a", "web") := Scenario.web ]};
     pending := [Quiet; Written "team-a" "web" (Scenario.deployment "team-a" "web" 3 20)];
     calls := [] |}.

(** A kubeconfig without the context it names as current, as a client
    running inside the cluster gets it. *)
Definition kube_in_cluster : Genericclioptions.ConfigFlags :=
  {| Genericclioptions.Namespace := "";
     Genericclioptions.restConfig := None;
     Genericclioptions.rawConfig :=
       inr {| Clientcmd.Contexts := ∅; Clientcmd.CurrentContext := "" |};
     Genericclioptions.newForConfig := None |}.

(** A kubeconfig whose current-context names a context that is not in
    it: the loader refuses to build a REST configuration from it. *)
Definition kube_dangling : Genericclioptions.ConfigFlags :=
  {| Genericclioptions.Namespace := "";
     Genericclioptions.restConfig :=
       Some (errorString
               "invalid configuration: context was not found for specified context: prod");
     Genericclioptions.rawConfig :=
       inr {| Clientcmd.Contexts := {[ "dev" := {| Clientcmd.Namespace := "team-a" |} ]};
              Clientcmd.CurrentContext := "prod" |};
     Genericclioptions.newForConfig := None |}.

(** edit-deploy api --replicas=2, for a Deployment that does not exist. *)
Definition scale_api : EditDeploy.CommandLine :=
  {| EditDeploy.positional := ["api"]; EditDeploy.replicas := Some 2;
     EditDeploy.rhl := None; EditDeploy.namespace := None |}.

(** Another client adds a rule to [viewer] each time the program is
    between its read and its write, twice. *)
Definition rival_rule : PolicyRule :=
  {| Verbs := ["delete"]; APIGroups := ["apps"]; Resources := ["deployments"] |}.

Definition viewer_grown (rules : list PolicyRule) : ClusterRole :=
  {| Rbac.ObjectMeta := {| Name := "viewer"; Namespace := ""; ResourceVersion := 0 |};
     Rules := rules |}.

Definition roles_contended : World ClusterRole :=
  {| objects := {[ ("", "viewer") := Scenario.viewer ]};
     pending :=
       [ Quiet;
         Written "" "viewer" (viewer_grown (Rules Scenario.viewer ++ [rival_rule]));
         Quiet;
         Written "" "viewer"
           (viewer_grown (Rules Scenario.viewer ++ [rival_rule; rival_rule])) ];
     calls := [] |}.

(** edit-cr editor --verbs=get --resources=pods, for a role that does not
    exist. *)
Definition add_to_editor : EditCR.CommandLine :=
  {| EditCR.positional := ["editor"]; EditCR.verbs := Some "get";
     EditCR.groups := None; EditCR.resources := Some "pods" |}.

(** edit-deploy web --replicas=5 for the first generation. *)
Definition scale_to_5_first : Part001.CommandLine :=
  {| Part001.positional := ["web"]; Part001.replicas := Some 5;
     Part001.namespace := None |}.

End Drift.

(** ** Requests about one object *)

Module Requests.
Section Requests.
Context {T : Type} `{Resource T}.
Variables (ns name : string).

(** A read or a write of the object [name] in namespace [ns]. *)
Definition about (c : Call) : Prop :=
  c = CallGet ns name ∨ c = CallUpdate ns name.

(** From [w0] to [w] the log grew by requests about the one object only,
    and the store of [w] is well keyed. *)
Definition kept (w0 w : World T) : Prop :=
  well_keyed (objects w)
  ∧ ∃ l, calls w = calls w0 ++ l ∧ Forall about l.

(** From [w] to [w'] the program sent [n] requests and none of them
    changed the store: it holds what the events of those [n] slots
    alone made of it. *)
Definition idle (w w' : World T) : Prop :=
  ∃ n, length (calls w') = (length (calls w) + n)%nat
       ∧ (objects w', pending w') = undisturbed n (objects w) (pending w).
End Requests.
End Requests.

(** ** Proof tools *)

(** Case analysis on every call a hypothesis runs through. *)
Ltac exec_inv :=
  repeat (cbv beta iota zeta in *;
          match goal with
          | H : (_, _) = (_, _) |- _ => inversion H; clear H; subst
          | H : context [match ?x with _ => _ end] |- _ => destruct x eqn:?
          end; try discriminate).

(** * Properties *)

(** ** The API server model *)

Module ClusterFacts.
Section Server.
Context {T : Type} `{Resource T}.
Implicit Types (w : World T) (m : gmap (string * string) T).

Lemma arrive_undisturbed c w w1 f :
  arrive c w = (w1, f) →
  (objects w1, pending w1) = undisturbed 1 (objects w) (pending w)
  ∧ calls w1 = calls w ++ [c].
Proof.
  unfold arrive. destruct w as [m evs cs]; simpl.
  destruct evs as [|ev evs]; intros [= <- <-]; simpl; auto.
Qed.

Lemma Get_undisturbed ns name w w1 r :
  Get ns name w = (w1, r) →
  (objects w1, pending w1) = undisturbed 1 (objects w) (pending w)
  ∧ calls w1 = calls w ++ [CallGet ns name].
Proof.
  unfold Get. destruct (arrive _ w) as [w0 f] eqn:Ha.
  apply arrive_undisturbed in Ha.
  destruct f; [intros [= <- <-]; exact Ha|].
  destruct (objects w0 !! _); intros [= <- <-]; exact Ha.
Qed.

(** A read returns what is stored under the key once the event of its
    slot has happened. *)
Lemma Get_inr ns name w w1 x :
  Get ns name w = (w1, inr x) → objects w1 !! (ns, name) = Some x.
Proof.
  unfold Get. destruct (arrive _ w) as [w0 f].
  destruct f; [discriminate|].
  destruct (objects w0 !! _) eqn:E; intros [= <- <-]; exact E.
Qed.

(** A refused write changes nothing: the store is as the events left
    it. *)
Lemma Update_inl_undisturbed ns x w w1 e :
  Update ns x w = (w1, inl e) →
  (objects w1, pending w1) = undisturbed 1 (objects w) (pending w)
  ∧ calls w1 = calls w ++ [CallUpdate ns (Name (meta x))].
Proof.
  unfold Update. destruct (arrive _ w) as [w0 f] eqn:Ha.
  apply arrive_undisturbed in Ha.
  destruct f; [intros [= <- <-]; exact Ha|].
  destruct (objects w0 !! _); [|intros [= <- <-]; exact Ha].
  destruct (N.eqb _ _); [|intros [= <- <-]; exact Ha].
  discriminate.
Qed.

Lemma undisturbed_add n k m evs :
  undisturbed (n + k) m evs =
  undisturbed k (undisturbed n m evs).1 (undisturbed n m evs).2.
Proof.
  revert m evs. induction n as [|n IH]; intros m evs; simpl; [done|].
  destruct evs as [|ev evs]; [|apply IH].
  simpl. clear. induction k; simpl; auto.
Qed.

Lemma undisturbed_step n k w w1 w2 :
  (objects w1, pending w1) = undisturbed n (objects w) (pending w) →
  (objects w2, pending w2) = undisturbed k (objects w1) (pending w1) →
  (objects w2, pending w2) = undisturbed (n + k) (objects w) (pending w).
Proof.
  intros H1 H2. rewrite undisturbed_add, <- H1. exact H2.
Qed.

Lemma undisturbed_quiet n m : undisturbed n m [] = (m, []).
Proof. destruct n; reflexivity. Qed.

(** In a quiet world a read is a lookup. *)
Lemma Get_quiet ns name w :
  quiet w →
  Get ns name w =
    ({| objects := objects w; pending := []; calls := calls w ++ [CallGet ns name] |},
     match objects w !! (ns, name) with
     | Some x => inr x
     | None => inl (StatusError StatusReasonNotFound (name +:+ " not found"))
     end).
Proof.
  unfold quiet, Get, arrive. intros ->. simpl.
  destruct (objects w !! _); reflexivity.
Qed.

(** In a quiet world a write that carries the stored version lands. *)
Lemma Update_quiet ns x cur w :
  quiet w →
  objects w !! (ns, Name (meta x)) = Some cur →
  ResourceVersion (meta cur) = ResourceVersion (meta x) →
  ∃ y, Update ns x w =
    ({| objects := store ns (Name (meta x)) x (objects w); pending := [];
        calls := calls w ++ [CallUpdate ns (Name (meta x))] |}, inr y).
Proof.
  unfold quiet, Update, arrive. intros -> Hcur Hrv. simpl.
  rewrite Hcur, Hrv, N.eqb_refl. simpl.
  eauto.
Qed.
End Server.
End ClusterFacts.

(** ** The retry helper *)

Module RetryFacts.
Import Retry.
Section OnError.
Context {W : Type}.
Variable retriable : error → bool.
Variable fn : W → W * option error.

Lemma backoff_retried k w wk last :
  retried retriable fn k w wk last →
  ∀ n l0,
    ExponentialBackoff (k + n) (condition retriable fn) (w, l0) =
    ExponentialBackoff n (condition retriable fn) (wk, carried l0 last).
Proof.
  induction 1 as [w|k w w1 w2 last e _ IH Hfn Hre]; intros n l0; [reflexivity|].
  replace (S k + n)%nat with (k + S n)%nat by lia.
  rewrite IH. simpl. rewrite Hfn, Hre. reflexivity.
Qed.

Lemma retry_run_retried k w w' last :
  retry_run retriable fn k w = Some (w', last) →
  retried retriable fn k w w' last.
Proof.
  revert w' last. induction k as [|k IH]; simpl; intros w' last.
  - intros [= <- <-]. constructor.
  - destruct (retry_run retriable fn k w) as [[w1 l1]|]; [|discriminate].
    destruct (fn w1) as [w2 [e|]] eqn:Hfn; [|discriminate].
    destruct (retriable e) eqn:Hre; [|discriminate].
    intros [= <- <-]. econstructor; eauto.
Qed.

(** After [k] retried attempts, with an attempt left, a success ends the
    loop with success. *)
Lemma OnError_success b k w wk last w' :
  retried retriable fn k w wk last →
  (k < Steps b)%nat →
  fn wk = (w', None) →
  OnError b retriable fn w = (w', None).
Proof.
  intros Hr Hk Hfn. unfold OnError.
  replace (Steps b) with (k + S (Steps b - S k))%nat by lia.
  rewrite (backoff_retried _ _ _ _ Hr). simpl. rewrite Hfn. reflexivity.
Qed.

(** ... and an error that is not retriable ends it with that error. *)
Lemma OnError_abort b k w wk last w' e :
  retried retriable fn k w wk last →
  (k < Steps b)%nat →
  fn wk = (w', Some e) →
  retriable e = false →
  e ≠ ErrWaitTimeout →
  OnError b retriable fn w = (w', Some e).
Proof.
  intros Hr Hk Hfn Hre Hne. unfold OnError.
  replace (Steps b) with (k + S (Steps b - S k))%nat by lia.
  rewrite (backoff_retried _ _ _ _ Hr). simpl. rewrite Hfn, Hre.
  destruct e; congruence.
Qed.

(** When every attempt the policy allows was retried, the loop gives up
    with the last error. *)
Lemma OnError_exhausted b w w' last :
  retried retriable fn (Steps b) w w' last →
  OnError b retriable fn w = (w', last).
Proof.
  intros Hr. unfold OnError.
  replace (Steps b) with (Steps b + 0)%nat at 1 by lia.
  rewrite (backoff_retried _ _ _ _ Hr). simpl.
  destruct Hr; reflexivity.
Qed.
End OnError.
End RetryFacts.

(** ** The shared loop *)

Module UpdaterFacts.
Import Retry Updater ClusterFacts RetryFacts.
Section Updater.
Context {T : Type} `{Resource T}.
Variables (ns name : string) (f : T → T).
Implicit Types (w : World T).

Lemma fault_status (ev : Event T) e :
  fault ev = Some e → ∃ reason message, e = StatusError reason message.
Proof. destruct ev; simpl; intros [= <-]; eauto. Qed.

Lemma Get_inl_status w w1 e :
  Get ns name w = (w1, inl e) → ∃ reason message, e = StatusError reason message.
Proof.
  unfold Get, arrive. destruct (pending w) as [|ev evs]; simpl.
  - destruct (objects w !! _); intros [= <- <-]; eauto.
  - destruct (fault ev) eqn:Hf.
    + intros [= <- <-]. eapply fault_status; eauto.
    + destruct (happen ev (objects w) !! _); intros [= <- <-]; eauto.
Qed.

Lemma Update_inl_status x w w1 e :
  Update ns x w = (w1, inl e) → ∃ reason message, e = StatusError reason message.
Proof.
  unfold Update, arrive. destruct (pending w) as [|ev evs]; simpl.
  - destruct (objects w !! _); [|intros [= <- <-]; eauto].
    destruct (N.eqb _ _); [|intros [= <- <-]; eauto].
    discriminate.
  - destruct (fault ev) eqn:Hf.
    + intros [= <- <-]. eapply fault_status; eauto.
    + destruct (happen ev (objects w) !! _); [|intros [= <- <-]; eauto].
      destruct (N.eqb _ _); [|intros [= <- <-]; eauto].
      discriminate.
Qed.

Lemma attempt_fetch_error w w1 e :
  Get ns name w = (w1, inl e) →
  attempt ns name f w =
    (w1, Some (Errorf_v "failed to get latest version fo Deployment: " e)).
Proof. unfold attempt. intros ->. reflexivity. Qed.

Lemma attempt_persist_error w w1 d w2 e :
  Get ns name w = (w1, inr d) →
  Update ns (f d) w1 = (w2, inl e) →
  attempt ns name f w = (w2, Some e).
Proof. unfold attempt. intros -> ->. reflexivity. Qed.

Lemma attempt_persist_ok w w1 d w2 y :
  Get ns name w = (w1, inr d) →
  Update ns (f d) w1 = (w2, inr y) →
  attempt ns name f w = (w2, None).
Proof. unfold attempt. intros -> ->. reflexivity. Qed.

(** An attempt that ends in a conflict got its object and had its write
    refused. *)
Lemma attempt_conflict_inv w w' e :
  attempt ns name f w = (w', Some e) →
  IsConflict e = true →
  ∃ w1 d, Get ns name w = (w1, inr d) ∧ Update ns (f d) w1 = (w', inl e).
Proof.
  unfold attempt. destruct (Get ns name w) as [w1 [e1|d]] eqn:Hg.
  - intros [= <- <-]. discriminate.
  - destruct (Update ns (f d) w1) as [w2 [e2|y]] eqn:Hu; [|discriminate].
    intros [= <- <-] _. eauto.
Qed.

(** An attempt that fails has written nothing. *)
Lemma attempt_error_undisturbed w w' e :
  attempt ns name f w = (w', Some e) →
  ∃ n, (n ≤ 2)%nat ∧
    (objects w', pending w') = undisturbed n (objects w) (pending w).
Proof.
  unfold attempt. destruct (Get ns name w) as [w1 [e1|d]] eqn:Hg.
  - intros [= <- <-]. exists 1%nat. split; [lia|].
    eapply Get_undisturbed; eauto.
  - destruct (Update ns (f d) w1) as [w2 [e2|y]] eqn:Hu; [|discriminate].
    intros [= <- <-]. exists 2%nat. split; [lia|].
    apply Get_undisturbed in Hg as [Hg _].
    apply Update_inl_undisturbed in Hu as [Hu _].
    exact (undisturbed_step 1 1 _ _ _ Hg Hu).
Qed.

Lemma attempt_conflict_undisturbed w w' e :
  attempt ns name f w = (w', Some e) →
  IsConflict e = true →
  (objects w', pending w') = undisturbed 2 (objects w) (pending w)
  ∧ length (calls w') = (length (calls w) + 2)%nat.
Proof.
  intros Ha Hc. destruct (attempt_conflict_inv _ _ _ Ha Hc) as (w1 & d & Hg & Hu).
  apply Get_undisturbed in Hg as [Hg Hgc].
  apply Update_inl_undisturbed in Hu as [Hu Huc].
  split; [exact (undisturbed_step 1 1 _ _ _ Hg Hu)|].
  rewrite Huc, Hgc, !length_app. simpl. lia.
Qed.

(** [k] conflicting attempts in a row: [2 * k] requests were sent and
    the store holds what the events alone put there. *)
Lemma retried_undisturbed k w w' last :
  retried IsConflict (attempt ns name f) k w w' last →
  (objects w', pending w') = undisturbed (2 * k) (objects w) (pending w)
  ∧ length (calls w') = (length (calls w) + 2 * k)%nat.
Proof.
  induction 1 as [w|k w w1 w2 last e _ [IH IHc] Hfn Hre].
  - simpl. split; [reflexivity|lia].
  - destruct (attempt_conflict_undisturbed _ _ _ Hfn Hre) as [Hu Hc].
    split; [|lia].
    replace (2 * S k)%nat with (2 * k + 2)%nat by lia.
    exact (undisturbed_step _ _ _ _ _ IH Hu).
Qed.

Lemma retried_last k w w' last :
  retried IsConflict (attempt ns name f) (S k) w w' last →
  ∃ e, last = Some e ∧ IsConflict e = true.
Proof. inversion 1; subst; eauto. Qed.

(** The loop, seen from [run]. *)

Lemma run_fetch_error k w wk last w1 e :
  retried IsConflict (attempt ns name f) k w wk last →
  (k < Steps DefaultRetry)%nat →
  Get ns name wk = (w1, inl e) →
  run ns name f w =
    (w1, Some (Errorf_v "update failed: "
                 (Errorf_v "failed to get latest version fo Deployment: " e))).
Proof.
  intros Hr Hk Hg. unfold run, RetryOnConflict.
  erewrite OnError_abort; eauto using attempt_fetch_error; done.
Qed.

Lemma run_persist_error k w wk last w1 d w2 e :
  retried IsConflict (attempt ns name f) k w wk last →
  (k < Steps DefaultRetry)%nat →
  Get ns name wk = (w1, inr d) →
  Update ns (f d) w1 = (w2, inl e) →
  IsConflict e = false →
  run ns name f w = (w2, Some (Errorf_v "update failed: " e)).
Proof.
  intros Hr Hk Hg Hu Hc. unfold run, RetryOnConflict.
  erewrite OnError_abort; eauto using attempt_persist_error.
  destruct (Update_inl_status _ _ _ _ Hu) as (? & ? & ->). done.
Qed.

Lemma run_persist_ok k w wk last w1 d w2 y :
  retried IsConflict (attempt ns name f) k w wk last →
  (k < Steps DefaultRetry)%nat →
  Get ns name wk = (w1, inr d) →
  Update ns (f d) w1 = (w2, inr y) →
  run ns name f w = (w2, None).
Proof.
  intros Hr Hk Hg Hu. unfold run, RetryOnConflict.
  erewrite OnError_success; eauto using attempt_persist_ok.
Qed.

Lemma run_exhausted w w' last :
  retried IsConflict (attempt ns name f) (Steps DefaultRetry) w w' last →
  ∃ e, last = Some e ∧ IsConflict e = true ∧
    run ns name f w = (w', Some (Errorf_v "update failed: " e)).
Proof.
  intros Hr. destruct (retried_last _ _ _ _ Hr) as (e & -> & Hc).
  exists e. split; [done|]. split; [done|].
  unfold run, RetryOnConflict.
  rewrite (OnError_exhausted _ _ _ _ _ _ Hr). reflexivity.
Qed.

(** However the loop ends, a failed [run] has written nothing: every
    request it sent was a read or a refused write. *)
Lemma ExponentialBackoff_error_undisturbed steps w l0 w' l' e :
  ExponentialBackoff steps (condition IsConflict (attempt ns name f)) (w, l0)
    = ((w', l'), Some e) →
  ∃ n, (objects w', pending w') = undisturbed n (objects w) (pending w).
Proof.
  revert w l0. induction steps as [|steps IH]; intros w l0; simpl.
  - intros [= <- <- <-]. exists 0%nat. reflexivity.
  - unfold condition at 1.
    destruct (attempt ns name f w) as [w1 [e1|]] eqn:Ha.
    + destruct (attempt_error_undisturbed _ _ _ Ha) as (n & _ & Hn).
      destruct (IsConflict e1).
      * intros Hb. apply IH in Hb as (k & Hk).
        exists (n + k)%nat. exact (undisturbed_step _ _ _ _ _ Hn Hk).
      * intros [= <- <- <-]. eauto.
    + discriminate.
Qed.

Lemma run_error_undisturbed w w' e :
  run ns name f w = (w', Some e) →
  ∃ n, (objects w', pending w') = undisturbed n (objects w) (pending w).
Proof.
  unfold run, RetryOnConflict, OnError.
  destruct (ExponentialBackoff _ _ _) as [[w1 l1] [e1|]] eqn:Hb; [|discriminate].
  apply ExponentialBackoff_error_undisturbed in Hb.
  destruct e1; (destruct l1; [|try discriminate]); intros [= <- <-]; exact Hb.
Qed.

(** A write that was accepted is what the store then holds, under a
    fresh version. *)
Lemma Update_inr_stored x w w1 y :
  Update ns x w = (w1, inr y) →
  ∃ v, objects w1 !! (ns, Name (meta x))
       = Some (with_meta {| Name := Name (meta x); Namespace := ns;
                            ResourceVersion := v |} x).
Proof.
  unfold Update. destruct (arrive _ w) as [w0 fl].
  destruct fl; [discriminate|].
  destruct (objects w0 !! _) as [cur|] eqn:Hcur; [|discriminate].
  destruct (N.eqb _ _); [|discriminate].
  intros Hx. assert (Hw : objects w1 = store ns (Name (meta x)) x (objects w0)).
  { injection Hx as <- _; reflexivity. }
  rewrite Hw. unfold store. rewrite lookup_insert_eq. eauto.
Qed.

Lemma attempt_None_stored w w' :
  attempt ns name f w = (w', None) →
  ∃ d v, objects w' !! (ns, Name (meta (f d)))
         = Some (with_meta {| Name := Name (meta (f d)); Namespace := ns;
                              ResourceVersion := v |} (f d)).
Proof.
  unfold attempt. destruct (Get ns name w) as [w1 [e1|d]]; [discriminate|].
  destruct (Update ns (f d) w1) as [w2 [e2|y]] eqn:Hu; [discriminate|].
  intros [= <-]. destruct (Update_inr_stored _ _ _ _ Hu) as [v Hv]. eauto.
Qed.

(** In a quiet world the first attempt lands. *)
Lemma run_quiet w d :
  quiet w →
  objects w !! (ns, name) = Some d →
  Name (meta (f d)) = name →
  ResourceVersion (meta (f d)) = ResourceVersion (meta d) →
  run ns name f w =
    ({| objects := store ns name (f d) (objects w); pending := [];
        calls := calls w ++ [CallGet ns name; CallUpdate ns name] |}, None).
Proof.
  intros Hq Hd Hname Hrv.
  pose proof (Get_quiet ns name w Hq) as Hg. rewrite Hd in Hg.
  destruct (Update_quiet ns (f d) d
              {| objects := objects w; pending := [];
                 calls := calls w ++ [CallGet ns name] |})
    as [y Hu]; [reflexivity|simpl; rewrite Hname; exact Hd|congruence|].
  rewrite (run_persist_ok 0 w w None _ d _ y (retried_O _ _ _)
             ltac:(simpl; lia) Hg Hu).
  simpl. rewrite Hname, <- app_assoc. reflexivity.
Qed.

Lemma retry_quiet w d :
  quiet w →
  objects w !! (ns, name) = Some d →
  Name (meta (f d)) = name →
  ResourceVersion (meta (f d)) = ResourceVersion (meta d) →
  RetryOnConflict DefaultRetry (attempt ns name f) w =
    ({| objects := store ns name (f d) (objects w); pending := [];
        calls := calls w ++ [CallGet ns name; CallUpdate ns name] |}, None).
Proof.
  intros Hq Hd Hn Hv. pose proof (run_quiet w d Hq Hd Hn Hv) as Hr.
  unfold run in Hr.
  destruct (RetryOnConflict _ _ _) as [w2 [e|]]; [discriminate|].
  injection Hr as ->. reflexivity.
Qed.

(** ... and a missing object ends the loop at once. *)
Lemma run_quiet_missing w :
  quiet w →
  objects w !! (ns, name) = None →
  run ns name f w =
    ({| objects := objects w; pending := [];
        calls := calls w ++ [CallGet ns name] |},
     Some (Errorf_v "update failed: "
             (Errorf_v "failed to get latest version fo Deployment: "
                (StatusError StatusReasonNotFound (name +:+ " not found"))))).
Proof.
  intros Hq Hd.
  pose proof (Get_quiet ns name w Hq) as Hg. rewrite Hd in Hg.
  exact (run_fetch_error 0 w w None _ _ (retried_O _ _ _) ltac:(simpl; lia) Hg).
Qed.
End Updater.
End UpdaterFacts.

(** ** Stepping through the programs *)

Lemma len_zero s : (len s =? 0) = true ↔ s = "".
Proof. unfold len. destruct s; simpl; split; done. Qed.

Lemma len_nonzero s : (len s =? 0) = false ↔ s ≠ "".
Proof.
  rewrite <- len_zero. destruct (len s =? 0); split; congruence.
Qed.

(** ** src/edit_deploy/kubectl-edit_deploy.go *)

Module EditDeployFacts.
Import Apps Exec Retry Cobra EditDeploy ClusterFacts RetryFacts UpdaterFacts.

Lemma userSpecifiedNamespace_pure o raw w w1 r :
  userSpecifiedNamespace o raw w = (w1, r) → w1 = w.
Proof.
  unfold userSpecifiedNamespace, bind, deref, ret, panic.
  intros Hx. exec_inv; congruence.
Qed.

(** The namespace only depends on the --namespace flag and the
    kubeconfig. *)
Lemma userSpecifiedNamespace_flags o o' raw w :
  configFlags o = configFlags o' →
  userSpecifiedNamespace o raw w = userSpecifiedNamespace o' raw w.
Proof. unfold userSpecifiedNamespace. intros ->. reflexivity. Qed.

(** The three levels of lines 117-129, and the nil context. *)
Lemma namespace_of_flag o raw w :
  Genericclioptions.Namespace (configFlags o) ≠ "" →
  userSpecifiedNamespace o raw w =
    (w, Ok (Genericclioptions.Namespace (configFlags o))).
Proof.
  intros Hf. unfold userSpecifiedNamespace, bind, ret.
  apply len_nonzero in Hf. rewrite Hf. simpl. rewrite Hf. reflexivity.
Qed.

Lemma namespace_of_context o raw w context :
  Genericclioptions.Namespace (configFlags o) = "" →
  Clientcmd.Contexts raw !! Clientcmd.CurrentContext raw = Some context →
  Clientcmd.Namespace context ≠ "" →
  userSpecifiedNamespace o raw w = (w, Ok (Clientcmd.Namespace context)).
Proof.
  intros Hf Hc Hn. unfold userSpecifiedNamespace, bind, ret, deref.
  rewrite Hf, Hc. simpl. apply len_nonzero in Hn. rewrite Hn. reflexivity.
Qed.

Lemma namespace_fallback o raw w context :
  Genericclioptions.Namespace (configFlags o) = "" →
  Clientcmd.Contexts raw !! Clientcmd.CurrentContext raw = Some context →
  Clientcmd.Namespace context = "" →
  userSpecifiedNamespace o raw w = (w, Ok "Default").
Proof.
  intros Hf Hc Hn. unfold userSpecifiedNamespace, bind, ret, deref.
  rewrite Hf, Hc. simpl. rewrite Hn. reflexivity.
Qed.

Lemma namespace_nil_context o raw w :
  Genericclioptions.Namespace (configFlags o) = "" →
  Clientcmd.Contexts raw !! Clientcmd.CurrentContext raw = None →
  userSpecifiedNamespace o raw w = (w, Panic).
Proof.
  intros Hf Hc. unfold userSpecifiedNamespace, bind, ret, deref, panic.
  rewrite Hf, Hc. reflexivity.
Qed.

(** [Run]'s function literal has the shared shape. *)
Lemma attempt_shape ns o :
  attempt ns o = Updater.attempt ns (deploymentName o) (mutate o).
Proof. reflexivity. Qed.

Lemma Run_shape o ns w :
  deploymentsClient o = Some ns →
  Run o w = check (Updater.run ns (deploymentName o) (mutate o)) w.
Proof. unfold Run. intros ->. reflexivity. Qed.

(** What a successful [Complete] has done: it resolved the namespace,
    read the Deployment once and filled in the values not given. *)
Lemma Complete_Ok_inv o a w w1 o1 :
  Complete o a w = (w1, Ok o1) →
  ∃ raw ns d,
    Genericclioptions.rawConfig (configFlags o) = inr raw
    ∧ userSpecifiedNamespace o raw w = (w, Ok ns)
    ∧ deploymentsClient o1 = Some ns
    ∧ Get ns (deploymentName o1) w = (w1, inr d)
    ∧ args o1 = a
    ∧ deploymentName o1 = match a with x :: _ => x | [] => deploymentName o end
    ∧ deploymentName o1 ≠ ""
    ∧ (if newReplicas o <=? 0 then Replicas (Spec d) = Some (newReplicas o1)
       else newReplicas o1 = newReplicas o)
    ∧ (if newRhl o <? 0 then RevisionHistoryLimit (Spec d) = Some (newRhl o1)
       else newRhl o1 = newRhl o).
Proof.
  unfold Complete, bind, pure, call, deref, ret, fail, panic.
  intros Hx. exec_inv.
  all: match goal with
       | Hn : userSpecifiedNamespace _ _ _ = _ |- _ =>
           pose proof (userSpecifiedNamespace_pure _ _ _ _ _ Hn); subst
       end.
  all: simpl in *.
  all: match goal with
       | Hl : (len _ =? 0) = false |- _ => apply len_nonzero in Hl
       end.
  all: repeat match goal with
         | Hb : (?x <=? 0) = _ |- context [?x <=? 0] => rewrite Hb
         | Hb : (?x <? 0) = _ |- context [?x <? 0] => rewrite Hb
         end.
  all: eexists _, _, _; repeat split; eauto.
Qed.


(** Whatever [Complete] answers, it has read at most once and written
    nothing. *)
(** Whatever [Complete] answers, it has read at most once and written
    nothing. *)
Lemma Complete_undisturbed o a w w1 r :
  Complete o a w = (w1, r) →
  (w1 = w ∧ ∀ o1, r ≠ Ok o1)
  ∨ (∃ ns, calls w1 = calls w ++ [CallGet ns (hd (deploymentName o) a)]
       ∧ (objects w1, pending w1) = undisturbed 1 (objects w) (pending w)).
Proof.
  unfold Complete, bind, pure, call, deref, ret, fail, panic.
  intros Hx. exec_inv.
  all: try match goal with
       | Hn : userSpecifiedNamespace _ _ _ = _ |- _ =>
           pose proof (userSpecifiedNamespace_pure _ _ _ _ _ Hn); subst
       end.
  all: try (left; split; [reflexivity|discriminate]).
  all: right.
  all: match goal with
       | Hg : Get ?ns _ _ = _ |- _ =>
           exists ns; apply Get_undisturbed in Hg as [Hg1 Hg2];
           split; [exact Hg2|exact Hg1]
       end.
Qed.
(** *** Giving up after five conflicts *)

Lemma update_failed_not_usage msg :
  errorString ("update failed: " +:+ msg) ∉ usage_errors.
Proof.
  unfold usage_errors, Errorf. rewrite !elem_of_cons, elem_of_nil.
  intros [H|[H|[H|[H|[]]]]]; discriminate H.
Qed.

(** C3.  When every attempt the default policy allows (five) ends in a
    version conflict, the command fails with the error "update failed:
    ..." (exit status 1), which is neither a not-found error nor one of
    the usage errors, and the store holds exactly what the other writers
    put there during the eleven requests of the run: no write of the
    program has landed. *)
Theorem conflict_exhaustion o0 a w0 o ns w w' last :
  Complete o0 a w0 = (w, Ok o) →
  Validate o = None →
  deploymentsClient o = Some ns →
  retried IsConflict (attempt ns o) (Steps DefaultRetry) w w' last →
  Steps DefaultRetry = 5%nat
  ∧ ∃ e, last = Some e ∧ IsConflict e = true
    ∧ RunE o0 a w0 = (w', Err (errorString ("update failed: " +:+ Error e)))
    ∧ exit_status (RunE o0 a w0).2 = 1
    ∧ IsNotFound (errorString ("update failed: " +:+ Error e)) = false
    ∧ (errorString ("update failed: " +:+ Error e) ∉ usage_errors)
    ∧ (objects w', pending w') = undisturbed 11 (objects w0) (pending w0)
    ∧ length (calls w') = (length (calls w0) + 11)%nat.
Proof.
  intros Hc Hv Hns Hr. split; [reflexivity|].
  rewrite attempt_shape in Hr.
  destruct (run_exhausted _ _ _ _ _ _ Hr) as (e & -> & Hce & Hrun).
  exists e. split; [reflexivity|]. split; [exact Hce|].
  assert (HE : RunE o0 a w0 = (w', Err (errorString ("update failed: " +:+ Error e)))).
  { unfold RunE, bind. rewrite Hc. unfold check at 1. rewrite Hv.
    rewrite (Run_shape _ _ _ Hns). unfold check. rewrite Hrun. reflexivity. }
  rewrite HE. split; [reflexivity|]. split; [reflexivity|]. split; [reflexivity|].
  split; [apply update_failed_not_usage|].
  apply retried_undisturbed in Hr as [Hu Hl].
  destruct (Complete_undisturbed _ _ _ _ _ Hc) as [[_ Hno]|(ns' & Hcalls & Hund)].
  { exfalso. exact (Hno _ eq_refl). }
  split.
  - exact (undisturbed_step 1 (2 * 5) _ _ _ Hund Hu).
  - rewrite Hl, Hcalls, length_app. simpl. lia.
Qed.

(** [web] is written by a rival before each of the five writes of
    edit-deploy web --replicas=5. *)
Lemma conflict_exhaustion_witness :
  RunE (parsed Scenario.kube Scenario.scale_to_5) ["web"] Scenario.contended
    = ({| objects := {[ ("team-a", "web") :=
                          {| ObjectMeta := {| Name := "web"; Namespace := "team-a";
                                              ResourceVersion := 12 |};
                             Spec := {| Replicas := Some 4;
                                        RevisionHistoryLimit := Some 10 |} |} ]};
          pending := [];
          calls := CallGet "team-a" "web"
                   :: concat (replicate 5 [CallGet "team-a" "web";
                                           CallUpdate "team-a" "web"]) |},
       Err (errorString ("update failed: " +:+ conflict_message))).
Proof.
  pose (w1 := (Complete (parsed Scenario.kube Scenario.scale_to_5) ["web"]
                 Scenario.contended).1).
  pose (w5 := (RunE (parsed Scenario.kube Scenario.scale_to_5) ["web"]
                 Scenario.contended).1).
  pose (o := {| configFlags := Scenario.kube; deploymentsClient := Some "team-a";
                newReplicas := 5; newRhl := 10; deploymentName := "web";
                args := ["web"] |}).
  assert (Hc : Complete (parsed Scenario.kube Scenario.scale_to_5) ["web"]
                 Scenario.contended = (w1, Ok o)).
  { vm_compute. reflexivity. }
  destruct (conflict_exhaustion _ _ _ _ "team-a" _ w5
              (Some (StatusError StatusReasonConflict conflict_message))
              Hc eq_refl eq_refl) as (_ & e & He & _ & HE & _).
  - apply retry_run_retried. vm_compute. reflexivity.
  - injection He as <-. rewrite HE. vm_compute. reflexivity.
Defined.

(** *** Validation and the first request *)

Lemma Validate_None o :
  Validate o = None ↔ length (args o) = 1%nat ∧ 0 < newReplicas o ∧ 0 ≤ newRhl o.
Proof.
  unfold Validate.
  destruct (Nat.eqb_spec (length (args o)) 1); simpl;
    [|split; [discriminate|intros [? _]; contradiction]].
  destruct (Z.leb_spec (newReplicas o) 0);
    [split; [discriminate|lia]|].
  destruct (Z.ltb_spec (newRhl o) 0); split; try discriminate; try lia; auto.
Qed.

Lemma Validate_Some o e :
  Validate o = Some e →
  e ∈ [ Errorf "only one argument is allowed";
        Errorf "invalid number of replicas";
        Errorf "invalid value of RevisionHistoryLimit" ].
Proof.
  unfold Validate. rewrite !elem_of_cons.
  destruct (negb _); [intros [= <-]; auto|].
  destruct (_ <=? _); [intros [= <-]; auto|].
  destruct (_ <? _); [intros [= <-]; auto|discriminate].
Qed.

(** C5, as the program has it.  Only the check that a name was given
    precedes every request.  The other checks (exactly one argument,
    replicas positive, limit not negative) are made by [Validate] on the
    values [Complete] has filled in, that is after the one read of the
    Deployment [Complete] sends and before any write: a failed check is
    reported with one [Get] sent, no [Update], and the store as the other
    clients left it. *)
Theorem validation_follows_one_read kube cl w :
  (hd "" (positional cl) = "" →
     NewCmdEdit kube cl w = (w, Err (Errorf "deployment name not specified")))
  ∧ (∀ w1 o e,
       Complete (parsed kube cl) (positional cl) w = (w1, Ok o) →
       Validate o = Some e →
       NewCmdEdit kube cl w = (w1, Err e)
       ∧ e ∈ [ Errorf "only one argument is allowed";
               Errorf "invalid number of replicas";
               Errorf "invalid value of RevisionHistoryLimit" ]
       ∧ (∃ ns, calls w1 = calls w ++ [CallGet ns (hd "" (positional cl))])
       ∧ (objects w1, pending w1) = undisturbed 1 (objects w) (pending w)).
Proof.
  split.
  - intros Hn. unfold NewCmdEdit, RunE, bind, Complete.
    destruct (positional cl) as [|a rest]; simpl in *.
    + reflexivity.
    + subst a. reflexivity.
  - intros w1 o e Hc Hv. split; [|split; [eapply Validate_Some; eauto|]].
    + unfold NewCmdEdit, RunE, bind. rewrite Hc. unfold check. rewrite Hv.
      reflexivity.
    + destruct (Complete_undisturbed _ _ _ _ _ Hc) as [[_ Hno]|(ns & Hcalls & Hund)].
      { exfalso. exact (Hno _ eq_refl). }
      split; [exists ns; exact Hcalls|exact Hund].
Qed.

(** edit-deploy web --rhl=5 on [web] scaled to zero: refused after the
    read. *)
Lemma validation_follows_one_read_witness :
  NewCmdEdit Scenario.kube Scenario.limit_to_5 Scenario.cluster_idle
    = ({| objects := objects Scenario.cluster_idle; pending := [];
          calls := [CallGet "team-a" "web"] |},
       Err (Errorf "invalid number of replicas")).
Proof.
  destruct (validation_follows_one_read Scenario.kube Scenario.limit_to_5
              Scenario.cluster_idle) as [_ H].
  destruct (H {| objects := objects Scenario.cluster_idle; pending := [];
                 calls := [CallGet "team-a" "web"] |}
              {| configFlags := Scenario.kube; deploymentsClient := Some "team-a";
                 newReplicas := 0; newRhl := 5; deploymentName := "web";
                 args := ["web"] |}
              (Errorf "invalid number of replicas")) as [HE _].
  - vm_compute. reflexivity.
  - reflexivity.
  - exact HE.
Defined.

(** C5, as stated, fails: edit-deploy web extra --replicas=5 is refused
    for its second argument only after a [Get] for [web] was sent. *)
Lemma validation_after_network_call :
  NewCmdEdit Scenario.kube Scenario.two_arguments Scenario.cluster
    = ({| objects := objects Scenario.cluster; pending := [];
          calls := [CallGet "team-a" "web"] |},
       Err (Errorf "only one argument is allowed"))
  ∧ calls Scenario.cluster = [].
Proof. split; vm_compute; reflexivity. Qed.

(** *** The namespace *)

(** The flag wins over the context, the context over the fallback. *)
Lemma namespace_precedence o a w w1 o1 raw :
  Complete o a w = (w1, Ok o1) →
  Genericclioptions.rawConfig (configFlags o) = inr raw →
  let flag := Genericclioptions.Namespace (configFlags o) in
  (flag ≠ "" → deploymentsClient o1 = Some flag)
  ∧ (flag = "" →
     ∃ context,
       Clientcmd.Contexts raw !! Clientcmd.CurrentContext raw = Some context
       ∧ (Clientcmd.Namespace context ≠ "" →
          deploymentsClient o1 = Some (Clientcmd.Namespace context))
       ∧ (Clientcmd.Namespace context = "" →
          deploymentsClient o1 = Some "Default")).
Proof.
  intros Hc Hraw flag. subst flag.
  destruct (Complete_Ok_inv _ _ _ _ _ Hc)
    as (raw' & ns & d & Hraw' & Hns & Hcl & _).
  rewrite Hraw in Hraw'. injection Hraw' as <-. rewrite Hcl.
  split.
  - intros Hf. rewrite (namespace_of_flag _ raw w Hf) in Hns. congruence.
  - intros Hf.
    destruct (Clientcmd.Contexts raw !! Clientcmd.CurrentContext raw)
      as [context|] eqn:Hctx.
    + exists context. split; [reflexivity|]. split; intros Hn.
      * rewrite (namespace_of_context _ raw w context Hf Hctx Hn) in Hns. congruence.
      * rewrite (namespace_fallback _ raw w context Hf Hctx Hn) in Hns. congruence.
    + rewrite (namespace_nil_context _ raw w Hf Hctx) in Hns. discriminate.
Qed.

(** C6 at the input where the code departs from it: no --namespace
    flag and a context that names no namespace.  The client is built for
    the namespace "Default", which is not [NamespaceDefault]; [web],
    which lives in the latter, is reported missing. *)
Theorem fallback_namespace_capitalised :
  NewCmdEdit Scenario.kube_bare Scenario.scale_to_5 Scenario.cluster_default
    = ({| objects := objects Scenario.cluster_default; pending := [];
          calls := [CallGet "Default" "web"] |},
       Err (StatusError StatusReasonNotFound "web not found"))
  ∧ objects Scenario.cluster_default !! (NamespaceDefault, "web")
    = Some (Scenario.deployment "default" "web" 3 10)
  ∧ "Default" ≠ NamespaceDefault.
Proof. split; [|split]; [vm_compute; reflexivity..|discriminate]. Qed.
(** *** Runs in a quiet cluster *)

Lemma userSpecifiedNamespace_world o raw w w' :
  (userSpecifiedNamespace o raw w).2 = (userSpecifiedNamespace o raw w').2.
Proof.
  unfold userSpecifiedNamespace, bind, deref, ret, panic.
  destruct (len _ =? 0); [|destruct (len _ =? 0); reflexivity].
  destruct (Clientcmd.Contexts raw !! _); [|reflexivity].
  destruct (len _ =? 0); reflexivity.
Qed.

Lemma userSpecifiedNamespace_Ok o raw w ns :
  (userSpecifiedNamespace o raw w).2 = Ok ns →
  ∀ w', userSpecifiedNamespace o raw w' = (w', Ok ns).
Proof.
  intros Hns w'. rewrite (userSpecifiedNamespace_world o raw w w') in Hns.
  destruct (userSpecifiedNamespace o raw w') as [w1 r] eqn:Hu.
  rewrite (userSpecifiedNamespace_pure _ _ _ _ _ Hu). simpl in Hns. congruence.
Qed.

Lemma stored_lookup ns a (x : Deployment) m :
  store ns a x m !! (ns, a) =
    Some {| ObjectMeta := {| Name := a; Namespace := ns;
                             ResourceVersion := N.succ (version_of (m !! (ns, a))) |};
            Spec := Spec x |}.
Proof. unfold store. rewrite lookup_insert_eq. reflexivity. Qed.

Lemma stored_lookup_ne ns a (x : Deployment) m k :
  k ≠ (ns, a) → store ns a x m !! k = m !! k.
Proof. intros Hk. unfold store. rewrite lookup_insert_ne; [reflexivity|congruence]. Qed.

Lemma Complete_quiet o a rest raw ns d n' h' w :
  quiet w → a ≠ "" →
  Genericclioptions.restConfig (configFlags o) = None →
  Genericclioptions.rawConfig (configFlags o) = inr raw →
  Genericclioptions.newForConfig (configFlags o) = None →
  (userSpecifiedNamespace o raw w).2 = Ok ns →
  objects w !! (ns, a) = Some d →
  (if newReplicas o <=? 0 then Replicas (Spec d) = Some n' else n' = newReplicas o) →
  (if newRhl o <? 0 then RevisionHistoryLimit (Spec d) = Some h' else h' = newRhl o) →
  Complete o (a :: rest) w =
    ({| objects := objects w; pending := []; calls := calls w ++ [CallGet ns a] |},
     Ok {| configFlags := configFlags o; deploymentsClient := Some ns;
           newReplicas := n'; newRhl := h'; deploymentName := a;
           args := a :: rest |}).
Proof.
  intros Hq Ha Hrest Hraw Hnew Hns Hd Hn Hh.
  unfold Complete, bind, pure, call,
    Genericclioptions.ToRESTConfig, Genericclioptions.RawConfig,
    Genericclioptions.NewForConfig.
  simpl. apply len_nonzero in Ha. rewrite Ha, Hrest, Hraw, Hnew.
  match goal with
  | |- context [userSpecifiedNamespace ?o' raw w] =>
      rewrite (userSpecifiedNamespace_flags o' o raw w eq_refl)
  end.
  rewrite (userSpecifiedNamespace_Ok _ _ _ _ Hns w).
  rewrite (Get_quiet ns a w Hq), Hd.
  unfold ret, deref. simpl.
  destruct (newReplicas o <=? 0).
  - rewrite Hn. simpl. destruct (newRhl o <? 0).
    + rewrite Hh. reflexivity.
    + subst h'. reflexivity.
  - subst n'. simpl. destruct (newRhl o <? 0).
    + rewrite Hh. reflexivity.
    + subst h'. reflexivity.
Qed.

(** A run whose completed values pass [Validate] writes them: one read
    by [Complete], one read and one write by [Run]. *)
Lemma RunE_quiet o a raw ns d n' h' w :
  quiet w → a ≠ "" →
  Genericclioptions.restConfig (configFlags o) = None →
  Genericclioptions.rawConfig (configFlags o) = inr raw →
  Genericclioptions.newForConfig (configFlags o) = None →
  (userSpecifiedNamespace o raw w).2 = Ok ns →
  objects w !! (ns, a) = Some d →
  Name (ObjectMeta d) = a →
  (if newReplicas o <=? 0 then Replicas (Spec d) = Some n' else n' = newReplicas o) →
  (if newRhl o <? 0 then RevisionHistoryLimit (Spec d) = Some h' else h' = newRhl o) →
  0 < n' → 0 ≤ h' →
  RunE o [a] w =
    ({| objects :=
          store ns a {| ObjectMeta := ObjectMeta d;
                        Spec := {| Replicas := Some n';
                                   RevisionHistoryLimit := Some h' |} |} (objects w);
        pending := [];
        calls := calls w ++ [CallGet ns a; CallGet ns a; CallUpdate ns a] |},
     Ok tt).
Proof.
  intros Hq Ha Hrest Hraw Hnew Hns Hd Hname Hn Hh Hn0 Hh0.
  unfold RunE, bind.
  rewrite (Complete_quiet o a [] raw ns d n' h' w); try assumption.
  unfold check at 1.
  destruct (Validate _) as [e|] eqn:Hv.
  { exfalso. assert (Hv' : Validate {| configFlags := configFlags o;
        deploymentsClient := Some ns; newReplicas := n'; newRhl := h';
        deploymentName := a; args := [a] |} = None).
    { apply Validate_None. simpl. repeat split; [lia|lia]. }
    congruence. }
  erewrite Run_shape by reflexivity. unfold check.
  erewrite (run_quiet ns a _ _ d); [| reflexivity | exact Hd | exact Hname | reflexivity].
  simpl. rewrite <- app_assoc. reflexivity.
Qed.

(** The replica count, for this generation: in a quiet
    cluster edit-deploy a --replicas=N, N positive, on an existing
    Deployment whose revision-history limit is set (as the server
    serves it) succeeds and leaves N stored. *)
Lemma replicas_stored kube cl w ns a d N h :
  reaches kube cl w ns a d →
  RevisionHistoryLimit (Spec d) = Some h → 0 ≤ h →
  replicas cl = Some N → 0 < N →
  ∃ w' d' h',
    NewCmdEdit kube cl w = (w', Ok tt)
    ∧ quiet w'
    ∧ objects w' !! (ns, a) = Some d'
    ∧ Name (ObjectMeta d') = a
    ∧ Spec d' = {| Replicas := Some N; RevisionHistoryLimit := Some h' |}
    ∧ 0 ≤ h'
    ∧ (rhl cl = None → h' = h).
Proof.
  intros (Hq & Hpos & Ha & Hrest & Hnew & (raw & Hraw & Hns) & Hd & Hname) Hh Hh0 HN HN0.
  set (h' := if Int32Var (-1) (rhl cl) <? 0 then h else Int32Var (-1) (rhl cl)).
  assert (Hh' : 0 ≤ h').
  { unfold h'. destruct (Z.ltb_spec (Int32Var (-1) (rhl cl)) 0); lia. }
  eexists _, _, h'. split.
  - unfold NewCmdEdit. rewrite Hpos.
    apply (RunE_quiet _ a raw ns d N h' w); try assumption.
    + simpl. rewrite HN. simpl. destruct (Z.leb_spec N 0); [lia|reflexivity].
    + simpl. unfold h'. destruct (_ <? 0); [exact Hh|reflexivity].
  - split; [reflexivity|]. simpl. rewrite stored_lookup.
    split; [reflexivity|]. split; [reflexivity|]. split; [reflexivity|].
    split; [exact Hh'|].
    intros Hr. unfold h'. rewrite Hr. reflexivity.
Qed.
Lemma reaches_again kube cl w ns a d w' d' :
  reaches kube cl w ns a d →
  quiet w' → objects w' !! (ns, a) = Some d' → Name (ObjectMeta d') = a →
  reaches kube cl w' ns a d'.
Proof.
  intros (Hq & Hpos & Ha & Hrest & Hnew & (raw & Hraw & Hns) & Hd & Hname) Hq' Hd' Hn'.
  repeat split; try assumption.
  exists raw. split; [assumption|].
  rewrite <- Hns. apply userSpecifiedNamespace_world.
Qed.

(** C8.  In a quiet cluster, edit-deploy a --replicas=N (N positive) on
    an existing Deployment, run a second time right after the first,
    does not fail and leaves the replica count the first run stored,
    N. *)
Theorem replicas_idempotent kube cl w ns a d N h :
  reaches kube cl w ns a d →
  RevisionHistoryLimit (Spec d) = Some h → 0 ≤ h →
  replicas cl = Some N → 0 < N →
  ∃ w1 w2 d1 d2,
    NewCmdEdit kube cl w = (w1, Ok tt)
    ∧ NewCmdEdit kube cl w1 = (w2, Ok tt)
    ∧ objects w1 !! (ns, a) = Some d1
    ∧ objects w2 !! (ns, a) = Some d2
    ∧ Replicas (Spec d1) = Some N
    ∧ Replicas (Spec d2) = Replicas (Spec d1).
Proof.
  intros Hreach Hh Hh0 HN HN0.
  destruct (replicas_stored kube cl w ns a d N h Hreach Hh Hh0 HN HN0)
    as (w1 & d1 & h1 & HE1 & Hq1 & Hd1 & Hn1 & Hs1 & Hh1 & _).
  assert (Hreach1 : reaches kube cl w1 ns a d1)
    by (eapply reaches_again; eauto).
  assert (Hrhl1 : RevisionHistoryLimit (Spec d1) = Some h1)
    by (rewrite Hs1; reflexivity).
  destruct (replicas_stored kube cl w1 ns a d1 N h1 Hreach1 Hrhl1 Hh1 HN HN0)
    as (w2 & d2 & h2 & HE2 & _ & Hd2 & _ & Hs2 & _).
  exists w1, w2, d1, d2. repeat split; try assumption.
  - rewrite Hs1. reflexivity.
  - rewrite Hs1, Hs2. reflexivity.
Qed.

Lemma reaches_scenario :
  reaches Scenario.kube Scenario.scale_to_5 Scenario.cluster "team-a" "web"
    Scenario.web.
Proof.
  repeat split; try discriminate.
  eexists. split; reflexivity.
Defined.

(** edit-deploy web --replicas=5 twice on [web]. *)
Lemma replicas_idempotent_witness :
  ∃ w1 w2 d1 d2,
    NewCmdEdit Scenario.kube Scenario.scale_to_5 Scenario.cluster = (w1, Ok tt)
    ∧ NewCmdEdit Scenario.kube Scenario.scale_to_5 w1 = (w2, Ok tt)
    ∧ objects w1 !! ("team-a", "web") = Some d1
    ∧ objects w2 !! ("team-a", "web") = Some d2
    ∧ Replicas (Spec d1) = Some 5
    ∧ Replicas (Spec d2) = Replicas (Spec d1).
Proof.
  apply (replicas_idempotent Scenario.kube Scenario.scale_to_5 Scenario.cluster
           "team-a" "web" Scenario.web 5 10 reaches_scenario eq_refl).
  - lia.
  - reflexivity.
  - lia.
Defined.

(** *** Fields the caller did not name *)

Lemma quiet_undisturbed (w w1 : World Deployment) n :
  quiet w →
  (objects w1, pending w1) = undisturbed n (objects w) (pending w) →
  objects w1 = objects w ∧ quiet w1.
Proof.
  unfold quiet. intros -> Hu. rewrite undisturbed_quiet in Hu.
  injection Hu as -> ->. split; reflexivity.
Qed.

(** Without interference the fields keep their values.  In a quiet
    cluster whose objects are stored under their own names, whatever the
    command line and however the run ends, every stored Deployment is
    still stored afterwards, with the replica count it had when
    --replicas was not given and with the revision-history limit it had
    when --rhl was not given. *)
Lemma unspecified_fields_kept kube cl w w' r :
  quiet w →
  well_keyed (objects w) →
  NewCmdEdit kube cl w = (w', r) →
  ∀ k d, objects w !! k = Some d →
    ∃ d', objects w' !! k = Some d'
      ∧ (replicas cl = None → Replicas (Spec d') = Replicas (Spec d))
      ∧ (rhl cl = None →
         RevisionHistoryLimit (Spec d') = RevisionHistoryLimit (Spec d)).
Proof.
  intros Hq Hwk HE k d Hk.
  assert (Hsame : objects w' = objects w → ∃ d', objects w' !! k = Some d'
      ∧ (replicas cl = None → Replicas (Spec d') = Replicas (Spec d))
      ∧ (rhl cl = None →
         RevisionHistoryLimit (Spec d') = RevisionHistoryLimit (Spec d))).
  { intros ->. exists d. auto. }
  unfold NewCmdEdit, RunE, bind in HE.
  destruct (Complete _ _ w) as [w1 [o1|e|]] eqn:Hc.
  2,3: injection HE as <- <-; apply Hsame;
       destruct (Complete_undisturbed _ _ _ _ _ Hc) as [[-> _]|(? & _ & Hu)];
       [reflexivity|exact (proj1 (quiet_undisturbed _ _ _ Hq Hu))].
  destruct (Complete_Ok_inv _ _ _ _ _ Hc)
    as (raw & ns & d0 & _ & _ & Hcl & Hg & _ & _ & _ & Hn & Hh).
  pose proof (Get_inr _ _ _ _ _ Hg) as Hd0.
  apply Get_undisturbed in Hg as [Hu _].
  destruct (quiet_undisturbed _ _ _ Hq Hu) as [Hobj Hq1].
  unfold check at 1 in HE. destruct (Validate o1) as [e|].
  { injection HE as <- <-. apply Hsame. exact Hobj. }
  rewrite (Run_shape _ _ _ Hcl) in HE. unfold check in HE.
  rewrite Hobj in Hd0.
  destruct (Hwk _ _ _ Hd0) as [Hname _].
  assert (Hd1 : objects w1 !! (ns, deploymentName o1) = Some d0)
    by (rewrite Hobj; exact Hd0).
  assert (Hname' : Name (meta (mutate o1 d0)) = deploymentName o1) by exact Hname.
  rewrite (run_quiet ns (deploymentName o1) (mutate o1) w1 d0 Hq1 Hd1 Hname' eq_refl)
    in HE.
  injection HE as <- <-. simpl.
  destruct (decide (k = (ns, deploymentName o1))) as [->|Hne].
  - rewrite stored_lookup. eexists. split; [reflexivity|]. simpl.
    assert (d = d0) by congruence. subst d0.
    split; intros Hflag; simpl in Hn, Hh; rewrite Hflag in *; simpl in *;
      congruence.
  - rewrite (stored_lookup_ne _ _ _ _ _ Hne), Hobj. exists d. auto.
Qed.

Lemma well_keyed_scenario : well_keyed (objects Scenario.cluster).
Proof.
  intros ns name x. simpl. intros Hx.
  apply lookup_singleton_Some in Hx as [[= <- <-] <-]. split; reflexivity.
Defined.

(** The scenario of the specification: edit-deploy web --replicas=5 on
    [web] with 3 replicas and a limit of 10 leaves 5 and 10 stored. *)
Lemma unspecified_fields_kept_witness :
  ∃ d', objects (NewCmdEdit Scenario.kube Scenario.scale_to_5 Scenario.cluster).1
          !! ("team-a", "web") = Some d'
        ∧ Replicas (Spec d') = Some 5
        ∧ RevisionHistoryLimit (Spec d') = Some 10.
Proof.
  destruct (unspecified_fields_kept Scenario.kube Scenario.scale_to_5
              Scenario.cluster
              (NewCmdEdit Scenario.kube Scenario.scale_to_5 Scenario.cluster).1
              (NewCmdEdit Scenario.kube Scenario.scale_to_5 Scenario.cluster).2
              eq_refl well_keyed_scenario
              (surjective_pairing _)
              ("team-a", "web") Scenario.web eq_refl)
    as (d' & Hd' & _ & Hrhl).
  exists d'. split; [exact Hd'|]. split.
  - revert Hd'. vm_compute. intros [= <-]. reflexivity.
  - rewrite (Hrhl eq_refl). reflexivity.
Defined.

(** C4 at the input where the code departs from it.  The command line
    edit-deploy web --replicas=5 names no limit.  [Complete] reads the
    limit of [web], 10, once (lines 142-144); another client then raises
    it to 20; [Run] fetches [web] afresh, which now holds 20, and assigns
    the value [Complete] kept to the fetched object (line 191).  The
    write is accepted and the run ends in success with the limit back at
    10: the field the caller did not name is changed by the program
    itself, from the value it has just fetched to the one read before
    the loop. *)
Theorem unspecified_limit_overwritten :
  rhl Scenario.scale_to_5 = None
  ∧ ∃ w1 o1 w2 fetched,
      Complete (parsed Scenario.kube Scenario.scale_to_5)
        (positional Scenario.scale_to_5) Drift.limit_raised = (w1, Ok o1)
      ∧ newRhl o1 = 10
      ∧ Validate o1 = None
      ∧ Get "team-a" "web" w1 = (w2, inr fetched)
      ∧ objects w2 !! ("team-a", "web") = Some fetched
      ∧ Spec fetched = {| Replicas := Some 3; RevisionHistoryLimit := Some 20 |}
      ∧ Run o1 w1
        = NewCmdEdit Scenario.kube Scenario.scale_to_5 Drift.limit_raised
      ∧ NewCmdEdit Scenario.kube Scenario.scale_to_5 Drift.limit_raised
        = ({| objects :=
                {[ ("team-a", "web") :=
                     {| ObjectMeta := {| Name := "web"; Namespace := "team-a";
                                         ResourceVersion := 9 |};
                        Spec := {| Replicas := Some 5;
                                   RevisionHistoryLimit := Some 10 |} |} ]};
              pending := [];
              calls := [CallGet "team-a" "web"; CallGet "team-a" "web";
                        CallUpdate "team-a" "web"] |},
           Ok tt).
Proof.
  split; [reflexivity|].
  pose (w1 := {| objects := objects Drift.limit_raised;
                 pending := [Written "team-a" "web"
                               (Scenario.deployment "team-a" "web" 3 20)];
                 calls := [CallGet "team-a" "web"] |}).
  exists w1,
    {| configFlags := configFlags (parsed Scenario.kube Scenario.scale_to_5);
       deploymentsClient := Some "team-a";
       newReplicas := 5; newRhl := 10; deploymentName := "web";
       args := ["web"] |},
    (Get "team-a" "web" w1).1,
    {| ObjectMeta := {| Name := "web"; Namespace := "team-a";
                        ResourceVersion := 8 |};
       Spec := {| Replicas := Some 3; RevisionHistoryLimit := Some 20 |} |}.
  repeat split; vm_compute; reflexivity.
Qed.

(** *** A replica count that is not positive *)

Lemma Run_error_shape o w w' e :
  Run o w = (w', Err e) → ∃ e', e = Errorf_v "update failed: " e'.
Proof.
  unfold Run. destruct (deploymentsClient o); [|discriminate].
  unfold check. destruct (RetryOnConflict _ _ _) as [w1 [e1|]]; [|discriminate].
  intros [= <- <-]. eauto.
Qed.

(** C9, with its last clause bounded.  A --replicas value that is not
    given, zero or negative is not reported as such: when [Complete]
    succeeds it has put the live replica count in its place, so with one
    argument the run ends in "invalid number of replicas" exactly when
    that live count is itself not positive, and then nothing was written.
    A Deployment scaled to zero can therefore not be edited by a command
    line without a positive --replicas (its limit alone cannot be
    changed); with a positive --replicas it is edited like any other. *)
Theorem nonpositive_replicas_use_live_count :
  (∀ kube cl a w w1 o1,
     positional cl = [a] →
     newReplicas (parsed kube cl) ≤ 0 →
     Complete (parsed kube cl) [a] w = (w1, Ok o1) →
     ∃ ns d,
       objects w1 !! (ns, a) = Some d
       ∧ Replicas (Spec d) = Some (newReplicas o1)
       ∧ (NewCmdEdit kube cl w = (w1, Err (Errorf "invalid number of replicas"))
          ↔ newReplicas o1 ≤ 0)
       ∧ (newReplicas o1 ≤ 0 →
          (objects w1, pending w1) = undisturbed 1 (objects w) (pending w)))
  ∧ (∀ kube cl w ns a d N h,
       reaches kube cl w ns a d →
       Replicas (Spec d) = Some 0 →
       RevisionHistoryLimit (Spec d) = Some h → 0 ≤ h →
       replicas cl = Some N → 0 < N →
       ∃ w' d',
         NewCmdEdit kube cl w = (w', Ok tt)
         ∧ objects w' !! (ns, a) = Some d'
         ∧ Replicas (Spec d') = Some N).
Proof.
  split.
  - intros kube cl a w w1 o1 Hpos Hflag Hc.
    destruct (Complete_Ok_inv _ _ _ _ _ Hc)
      as (raw & ns & d & _ & _ & _ & Hg & Hargs & Hname & _ & Hn & _).
    simpl in Hname. rewrite Hname in Hg.
    exists ns, d. split; [exact (Get_inr _ _ _ _ _ Hg)|].
    destruct (Z.leb_spec (newReplicas (parsed kube cl)) 0) as [_|Hlt]; [|lia].
    split; [exact Hn|]. split; [split|].
    + unfold NewCmdEdit, RunE, bind. rewrite Hpos, Hc. unfold check at 1.
      destruct (Validate o1) as [e|] eqn:Hv.
      * intros [= ->]. unfold Validate in Hv. rewrite Hargs in Hv. simpl in Hv.
        destruct (Z.leb_spec (newReplicas o1) 0); [assumption|].
        destruct (newRhl o1 <? 0); discriminate.
      * intros HR. apply Run_error_shape in HR as [e' He']. discriminate He'.
    + intros Hle. unfold NewCmdEdit, RunE, bind. rewrite Hpos, Hc.
      unfold check, Validate. rewrite Hargs. simpl.
      destruct (Z.leb_spec (newReplicas o1) 0); [reflexivity|lia].
    + intros _. exact (proj1 (Get_undisturbed _ _ _ _ _ Hg)).
  - intros kube cl w ns a d N h Hreach _ Hh Hh0 HN HN0.
    destruct (replicas_stored kube cl w ns a d N h Hreach Hh Hh0 HN HN0)
      as (w' & d' & h' & HE & _ & Hd' & _ & Hs & _).
    exists w', d'. repeat split; try assumption. rewrite Hs. reflexivity.
Qed.

(** edit-deploy web --rhl=5 on [web] scaled to zero. *)
Lemma nonpositive_replicas_use_live_count_witness :
  NewCmdEdit Scenario.kube Scenario.limit_to_5 Scenario.cluster_idle
    = ({| objects := objects Scenario.cluster_idle; pending := [];
          calls := [CallGet "team-a" "web"] |},
       Err (Errorf "invalid number of replicas")).
Proof.
  destruct nonpositive_replicas_use_live_count as [H _].
  destruct (H Scenario.kube Scenario.limit_to_5 "web" Scenario.cluster_idle
              {| objects := objects Scenario.cluster_idle; pending := [];
                 calls := [CallGet "team-a" "web"] |}
              {| configFlags := Scenario.kube; deploymentsClient := Some "team-a";
                 newReplicas := 0; newRhl := 5; deploymentName := "web";
                 args := ["web"] |})
    as (ns & d & _ & _ & [_ Hfire] & _).
  - reflexivity.
  - simpl. lia.
  - vm_compute. reflexivity.
  - apply Hfire. simpl. lia.
Defined.

(** C9's last clause, as stated, fails: [web] scaled to zero is edited
    by edit-deploy web --replicas=3. *)
Lemma idle_deployment_scaled_up :
  objects Scenario.cluster_idle !! ("team-a", "web")
    = Some (Scenario.deployment "team-a" "web" 0 10)
  ∧ NewCmdEdit Scenario.kube Scenario.scale_to_3 Scenario.cluster_idle
    = ({| objects :=
            {[ ("team-a", "web") :=
                 {| ObjectMeta := {| Name := "web"; Namespace := "team-a";
                                     ResourceVersion := 8 |};
                    Spec := {| Replicas := Some 3;
                               RevisionHistoryLimit := Some 10 |} |} ]};
          pending := [];
          calls := [CallGet "team-a" "web"; CallGet "team-a" "web";
                    CallUpdate "team-a" "web"] |},
       Ok tt).
Proof. split; vm_compute; reflexivity. Qed.

End EditDeployFacts.

(** ** src/unnamed/part_000 *)

Module Part000Facts.
Import Apps Exec Retry Cobra Part000 ClusterFacts UpdaterFacts.

(** In the program as [main] starts it, no flag counts as passed. *)
Lemma isFlagPassed_main name flag :
  isFlagPassed (Goflag.NewFlagSet name) flag = false.
Proof. reflexivity. Qed.

Lemma second_userSpecifiedNamespace_pure o raw w w1 r :
  userSpecifiedNamespace o raw w = (w1, r) → w1 = w.
Proof.
  unfold userSpecifiedNamespace, bind, deref, ret, panic.
  intros Hx. exec_inv; congruence.
Qed.

Lemma second_userSpecifiedNamespace_Ok o raw w ns :
  (userSpecifiedNamespace o raw w).2 = Ok ns →
  ∀ o' w', configFlags o' = configFlags o →
    userSpecifiedNamespace o' raw w' = (w', Ok ns).
Proof.
  unfold userSpecifiedNamespace, bind, deref, ret, panic.
  intros Hx o' w' ->. revert Hx.
  destruct (len _ =? 0); [|simpl; intros [= <-]; reflexivity].
  destruct (Clientcmd.Contexts raw !! _); simpl; [|discriminate].
  intros [= <-]. reflexivity.
Qed.

(** So [Complete] always replaces both values by the live ones, whatever
    the command line said. *)
Lemma Complete_overwrites name o a w w1 o1 :
  Complete (Goflag.NewFlagSet name) o a w = (w1, Ok o1) →
  ∃ raw ns d,
    Get ns (deploymentName o1) w = (w1, inr d)
    ∧ Replicas (Spec d) = Some (newReplicas o1)
    ∧ RevisionHistoryLimit (Spec d) = Some (newRhl o1)
    ∧ Genericclioptions.RawConfig (configFlags o1) = inr raw
    ∧ ∀ w', userSpecifiedNamespace o1 raw w' = (w', Ok ns).
Proof.
  unfold Complete, bind, pure, call, deref, ret, fail, panic.
  rewrite !isFlagPassed_main. intros Hx. exec_inv.
  all: match goal with
       | Hn : userSpecifiedNamespace _ ?raw _ = (_, Ok ?ns),
         Hg : Get _ _ _ = (_, inr ?d) |- _ =>
           exists raw, ns, d;
           assert (Hn2 := f_equal snd Hn); simpl in Hn2;
           pose proof (second_userSpecifiedNamespace_Ok _ _ _ _ Hn2) as Hall;
           apply second_userSpecifiedNamespace_pure in Hn; subst
       end.
  all: split; [eassumption|]; split; [assumption|]; split; [assumption|];
       split; [assumption|]; intros w'; apply Hall; reflexivity.
Qed.

Lemma second_Complete_objects CL o a w w1 r :
  quiet w →
  Complete CL o a w = (w1, r) →
  objects w1 = objects w ∧ quiet w1.
Proof.
  intros Hq. unfold Complete, bind, pure, call, deref, ret, fail, panic.
  intros Hx. exec_inv.
  all: try match goal with
       | Hn : userSpecifiedNamespace _ _ _ = _ |- _ =>
           pose proof (second_userSpecifiedNamespace_pure _ _ _ _ _ Hn); subst
       end.
  all: try (split; [reflexivity|assumption]).
  all: match goal with
       | Hg : Get _ _ _ = _ |- _ =>
           apply Get_undisturbed in Hg as [Hg _];
           unfold quiet in *; rewrite Hq in Hg; simpl in Hg;
           injection Hg as -> ->; split; reflexivity
       end.
Qed.

(** In a quiet cluster this generation changes no stored replica count
    and no stored limit, whatever the command line and however the run
    ends. *)
Lemma specs_unchanged name kube cl w w' r :
  quiet w → well_keyed (objects w) →
  NewCmdEdit (Goflag.NewFlagSet name) kube cl w = (w', r) →
  ∀ k d, objects w !! k = Some d →
    ∃ d', objects w' !! k = Some d' ∧ Spec d' = Spec d.
Proof.
  intros Hq Hwk HE k d Hk.
  assert (Hsame : objects w' = objects w →
                  ∃ d', objects w' !! k = Some d' ∧ Spec d' = Spec d).
  { intros ->. eauto. }
  unfold NewCmdEdit, RunE, bind in HE.
  destruct (Complete _ _ _ w) as [w1 ro] eqn:Hc.
  destruct (second_Complete_objects _ _ _ _ _ _ Hq Hc) as [Hobj Hq1].
  destruct ro as [o1|e|]; [|injection HE as <- <-; auto..].
  destruct (Complete_overwrites _ _ _ _ _ _ Hc)
    as (raw0 & ns & d0 & Hg & Hn & Hh & Hraw0 & Hns).
  apply Get_inr in Hg. rewrite Hobj in Hg.
  unfold check at 1 in HE. destruct (Validate o1) as [e|].
  { injection HE as <- <-. auto. }
  unfold Run in HE. destruct (_ && _).
  2: { injection HE as <- <-. auto. }
  unfold bind, pure, call in HE.
  destruct (Genericclioptions.ToRESTConfig _); [injection HE as <- <-; auto|].
  rewrite Hraw0 in HE.
  destruct (Genericclioptions.NewForConfig _ _); [injection HE as <- <-; auto|].
  rewrite (Hns w1) in HE.
  unfold check in HE.
  destruct (Hwk _ _ _ Hg) as [Hname _].
  assert (Hname' : Name (meta (mutate o1 d0)) = deploymentName o1) by exact Hname.
  assert (Hg1 : objects w1 !! (ns, deploymentName o1) = Some d0)
    by (rewrite Hobj; exact Hg).
  change (attempt ns o1)
    with (Updater.attempt ns (deploymentName o1) (mutate o1)) in HE.
  rewrite (retry_quiet ns (deploymentName o1) (mutate o1) w1 d0 Hq1 Hg1 Hname' eq_refl)
    in HE.
  injection HE as <- <-. simpl. rewrite Hobj.
  destruct (decide (k = (ns, deploymentName o1))) as [->|Hne].
  - unfold store. rewrite lookup_insert_eq. eexists. split; [reflexivity|]. simpl.
    assert (d = d0) by congruence. subst d0.
    destruct d as [m [rp rh]]. simpl in *. congruence.
  - unfold store. rewrite lookup_insert_ne by congruence. eauto.
Qed.

(** This generation has no fallback namespace at all: without a flag
    and with a context that names none, the client is built for the
    empty namespace. *)
Lemma no_fallback_namespace :
  main Scenario.kube_bare Scenario.scale_to_5' Scenario.cluster_default
    = ({| objects := objects Scenario.cluster_default; pending := [];
          calls := [CallGet "" "web"] |}, 1).
Proof. vm_compute. reflexivity. Qed.

(** C1 at the input where this generation departs from it:
    edit-deploy web --replicas=5 on [web] with 3 replicas ends with exit
    status 0 and 3 replicas stored. *)
Theorem replicas_flag_ignored :
  main Scenario.kube Scenario.scale_to_5' Scenario.cluster
    = ({| objects :=
            {[ ("team-a", "web") :=
                 {| ObjectMeta := {| Name := "web"; Namespace := "team-a";
                                     ResourceVersion := 8 |};
                    Spec := {| Replicas := Some 3;
                               RevisionHistoryLimit := Some 10 |} |} ]};
          pending := [];
          calls := [CallGet "team-a" "web"; CallGet "team-a" "web";
                    CallUpdate "team-a" "web"] |},
       0)
  ∧ newReplicas (parsed Scenario.kube Scenario.scale_to_5') = 5.
Proof. split; vm_compute; reflexivity. Qed.

End Part000Facts.

(** ** src/unnamed/part_001 *)

Module Part001Facts.
Import Apps Exec Retry Cobra Part001 ClusterFacts UpdaterFacts.

Lemma first_userSpecifiedNamespace_Ok o raw w ns :
  (userSpecifiedNamespace o raw w).2 = Ok ns →
  ∀ w', userSpecifiedNamespace o raw w' = (w', Ok ns).
Proof.
  unfold userSpecifiedNamespace, bind, deref, ret, panic.
  destruct (len _ =? 0); [|simpl; intros [= <-]; reflexivity].
  destruct (Clientcmd.Contexts raw !! _); simpl; [|discriminate].
  intros [= <-]. reflexivity.
Qed.

(** The first generation stores the replica count it is given: in a
    quiet cluster edit-deploy a --replicas=N, N positive, on
    an existing Deployment succeeds and leaves N stored, the limit
    untouched. *)
Lemma first_replicas_stored kube cl w raw ns a d N :
  quiet w →
  positional cl = [a] → a ≠ "" →
  Genericclioptions.restConfig kube = None →
  Genericclioptions.rawConfig kube = inr raw →
  Genericclioptions.newForConfig kube = None →
  (userSpecifiedNamespace (parsed kube cl) raw w).2 = Ok ns →
  objects w !! (ns, a) = Some d →
  Name (ObjectMeta d) = a →
  replicas cl = Some N → 0 < N →
  ∃ w' d',
    NewCmdEdit kube cl w = (w', Ok tt)
    ∧ objects w' !! (ns, a) = Some d'
    ∧ Spec d' = {| Replicas := Some N;
                   RevisionHistoryLimit := RevisionHistoryLimit (Spec d) |}.
Proof.
  intros Hq Hpos Ha Hrest Hraw Hnew Hns Hd Hname HN HN0.
  pose proof Ha as Hlen. apply len_nonzero in Hlen.
  unfold NewCmdEdit, RunE, bind, Complete. rewrite Hpos. simpl.
  rewrite Hlen. unfold ret at 1. unfold check at 1, Validate. simpl.
  rewrite HN. simpl.
  destruct (Z.leb_spec N 0) as [|_]; [lia|].
  unfold Run. simpl.
  assert (Hl : (0 <? len a) = true).
  { apply Z.ltb_lt. unfold len in *. destruct a; [done|simpl; lia]. }
  assert (Hn : (0 <? N) = true) by (apply Z.ltb_lt; lia).
  rewrite Hl, Hn. simpl.
  unfold bind, pure, call, Genericclioptions.ToRESTConfig,
    Genericclioptions.RawConfig, Genericclioptions.NewForConfig.
  simpl. rewrite Hrest, Hraw, Hnew.
  match goal with
  | |- context [userSpecifiedNamespace ?o' raw w] =>
      change (userSpecifiedNamespace o' raw w)
        with (userSpecifiedNamespace (parsed kube cl) raw w)
  end.
  rewrite (first_userSpecifiedNamespace_Ok _ _ _ _ Hns w).
  unfold check.
  match goal with
  | |- context [RetryOnConflict DefaultRetry (attempt ns ?o') w] =>
      change (let '(w1, retryErr) := RetryOnConflict DefaultRetry (attempt ns o') w in
              match retryErr with
              | Some e => (w1, Some (Errorf_v "update failed: " e))
              | None => (w1, None)
              end)
        with (Updater.run ns a (mutate o') w);
      assert (Hname' : Name (meta (mutate o' d)) = a) by exact Hname;
      rewrite (run_quiet ns a (mutate o') w d Hq Hd Hname' eq_refl)
  end.
  eexists _, _. split; [reflexivity|]. simpl.
  unfold store. rewrite lookup_insert_eq. split; reflexivity.
Qed.

End Part001Facts.

(** ** src/edit_cr/kubectl-edit_cr.go *)

Module EditCRFacts.
Import Rbac Exec Retry Cobra EditCR ClusterFacts RetryFacts UpdaterFacts.

Lemma role_attempt_shape o :
  attempt o = Updater.attempt NamespaceNone (clusterRoleName o) (mutate o).
Proof. reflexivity. Qed.

Lemma role_Run_shape o c w :
  clusterRoleInterface o = Some c →
  Run o w = check (Updater.run NamespaceNone (clusterRoleName o) (mutate o)) w.
Proof. unfold Run. intros ->. reflexivity. Qed.

(** [strings.Split] never returns an empty slice for a separator of one
    byte. *)
Lemma Split_nonempty s sep : Split s sep ≠ [].
Proof.
  destruct s as [|c s]; simpl; [discriminate|].
  destruct (Ascii.eqb c sep); [discriminate|].
  destruct (Split s sep); discriminate.
Qed.

Lemma Split_empty sep : Split "" sep = [""].
Proof. reflexivity. Qed.

Lemma role_RunE_quiet o a r w :
  quiet w → a ≠ "" →
  Genericclioptions.restConfig (configFlags o) = None →
  Genericclioptions.newForConfig (configFlags o) = None →
  objects w !! (NamespaceNone, a) = Some r →
  Name (ObjectMeta r) = a →
  newVerbs o ≠ "" → newResources o ≠ "" →
  RunE o [a] w =
    ({| objects :=
          store NamespaceNone a
            {| ObjectMeta := ObjectMeta r; Rules := Rules r ++ [newRule o] |}
            (objects w);
        pending := [];
        calls := calls w ++ [CallGet NamespaceNone a; CallUpdate NamespaceNone a] |},
     Ok tt).
Proof.
  intros Hq Ha Hrest Hnew Hr Hname Hv Hrs.
  apply len_nonzero in Ha, Hv, Hrs.
  unfold RunE, bind, Complete, pure, call, Genericclioptions.ToRESTConfig,
    Genericclioptions.NewForConfig.
  simpl. rewrite Ha, Hrest, Hnew. unfold ret at 1.
  unfold check at 1, Validate. simpl. rewrite Hv, Hrs.
  erewrite role_Run_shape by reflexivity. unfold check. cbn [clusterRoleName].
  match goal with
  | |- context [Updater.run _ _ (mutate ?o') w] =>
      assert (Hname' : Name (meta (mutate o' r)) = a) by exact Hname;
      rewrite (run_quiet NamespaceNone a (mutate o') w r Hq Hr Hname' eq_refl)
  end.
  reflexivity.
Qed.

Lemma role_stored_lookup a (x : ClusterRole) m :
  store NamespaceNone a x m !! (NamespaceNone, a) =
    Some {| ObjectMeta := {| Name := a; Namespace := NamespaceNone;
                             ResourceVersion :=
                               N.succ (version_of (m !! (NamespaceNone, a))) |};
            Rules := Rules x |}.
Proof. unfold store. rewrite lookup_insert_eq. reflexivity. Qed.

(** One run in a quiet cluster: the role's rules, then the new rule. *)
Lemma rule_appended_once kube cl w a r v rs :
  reaches kube cl w a r →
  verbs cl = Some v → v ≠ "" →
  resources cl = Some rs → rs ≠ "" →
  ∃ w1 r1,
    NewCmdEdit kube cl w = (w1, Ok tt)
    ∧ reaches kube cl w1 a r1
    ∧ Rules r1 = Rules r ++ [newRule (parsed kube cl)].
Proof.
  intros (Hq & Hpos & Ha & Hrest & Hnew & Hr & Hname) Hv Hv0 Hrs Hrs0.
  eexists _, _. split; [|split].
  - unfold NewCmdEdit. rewrite Hpos.
    apply (role_RunE_quiet _ a r w); try assumption; simpl.
    + rewrite Hv. exact Hv0.
    + rewrite Hrs. exact Hrs0.
  - unfold reaches. split; [reflexivity|]. split; [exact Hpos|].
    split; [exact Ha|]. split; [exact Hrest|]. split; [exact Hnew|].
    split; [apply role_stored_lookup|reflexivity].
  - reflexivity.
Qed.

(** C7.  In a quiet cluster edit-cr a --verbs=v --resources=rs
    [--groups=g] on an existing ClusterRole succeeds and leaves stored
    the role's rules, unchanged and in their order, followed by the one
    rule whose three lists are the flags split at the commas.  Nothing in
    the role is looked at to decide this: run a second time, the command
    stores the same rule once more. *)
Theorem rule_appended kube cl w a r v rs :
  reaches kube cl w a r →
  verbs cl = Some v → v ≠ "" →
  resources cl = Some rs → rs ≠ "" →
  let rule := {| Verbs := Split v ",";
                 APIGroups := Split (StringVar "" (groups cl)) ",";
                 Resources := Split rs "," |} in
  ∃ w1 w2 r1 r2,
    NewCmdEdit kube cl w = (w1, Ok tt)
    ∧ objects w1 !! (NamespaceNone, a) = Some r1
    ∧ Rules r1 = Rules r ++ [rule]
    ∧ NewCmdEdit kube cl w1 = (w2, Ok tt)
    ∧ objects w2 !! (NamespaceNone, a) = Some r2
    ∧ Rules r2 = Rules r ++ [rule; rule].
Proof.
  intros Hreach Hv Hv0 Hrs Hrs0 rule.
  assert (Hrule : newRule (parsed kube cl) = rule).
  { unfold rule, newRule. simpl. rewrite Hv, Hrs. reflexivity. }
  destruct (rule_appended_once kube cl w a r v rs Hreach Hv Hv0 Hrs Hrs0)
    as (w1 & r1 & HE1 & Hreach1 & HR1).
  destruct (rule_appended_once kube cl w1 a r1 v rs Hreach1 Hv Hv0 Hrs Hrs0)
    as (w2 & r2 & HE2 & Hreach2 & HR2).
  exists w1, w2, r1, r2. rewrite Hrule in *.
  split; [exact HE1|]. split; [apply Hreach1|]. split; [exact HR1|].
  split; [exact HE2|]. split; [apply Hreach2|].
  rewrite HR2, HR1, <- app_assoc. reflexivity.
Qed.

(** The scenario of the specification: [viewer] has one rule;
    edit-cr viewer --verbs=list,watch --resources=configmaps --groups=
    adds the second, and a second run the third. *)
Lemma rule_appended_witness :
  ∃ w1 w2 r1 r2,
    NewCmdEdit Scenario.kube Scenario.add_configmaps Scenario.roles = (w1, Ok tt)
    ∧ objects w1 !! (NamespaceNone, "viewer") = Some r1
    ∧ Rules r1 =
        [ {| Verbs := ["get"]; APIGroups := [""]; Resources := ["pods"] |};
          {| Verbs := ["list"; "watch"]; APIGroups := [""];
             Resources := ["configmaps"] |} ]
    ∧ NewCmdEdit Scenario.kube Scenario.add_configmaps w1 = (w2, Ok tt)
    ∧ objects w2 !! (NamespaceNone, "viewer") = Some r2
    ∧ Rules r2 =
        [ {| Verbs := ["get"]; APIGroups := [""]; Resources := ["pods"] |};
          {| Verbs := ["list"; "watch"]; APIGroups := [""];
             Resources := ["configmaps"] |};
          {| Verbs := ["list"; "watch"]; APIGroups := [""];
             Resources := ["configmaps"] |} ].
Proof.
  apply (rule_appended Scenario.kube Scenario.add_configmaps Scenario.roles
           "viewer" Scenario.viewer "list,watch" "configmaps").
  - repeat split; discriminate.
  - reflexivity.
  - discriminate.
  - reflexivity.
  - discriminate.
Defined.

(** C10.  The rule the editor builds has three non-empty lists, whatever
    the flags; without --groups, or with an empty one, its API groups are
    the one empty string.  It is the last rule of every role the program
    gets stored. *)
Theorem appended_rule_nonempty :
  (∀ o, Verbs (newRule o) ≠ [] ∧ Resources (newRule o) ≠ []
        ∧ APIGroups (newRule o) ≠ [])
  ∧ (∀ kube cl, groups cl = None ∨ groups cl = Some "" →
       APIGroups (newRule (parsed kube cl)) = [""])
  ∧ (∀ o w w', attempt o w = (w', None) →
       ∃ name r rules,
         objects w' !! (NamespaceNone, name) = Some r
         ∧ Rules r = rules ++ [newRule o]).
Proof.
  split; [|split].
  - intros o. unfold newRule. simpl. repeat split; apply Split_nonempty.
  - intros kube cl [Hg|Hg]; unfold newRule; simpl; rewrite Hg; reflexivity.
  - intros o w w' Ha. rewrite role_attempt_shape in Ha.
    destruct (attempt_None_stored _ _ _ _ _ Ha) as (d & v & Hv).
    eexists _, _, (Rules d). split; [exact Hv|reflexivity].
Qed.

(** The attempt of the specification's scenario, and its rule. *)
Lemma appended_rule_nonempty_witness :
  let o := {| configFlags := Scenario.kube; clusterRoleInterface := Some tt;
              newVerbs := "list,watch"; newApiGroups := "";
              newResources := "configmaps"; clusterRoleName := "viewer";
              args := ["viewer"] |} in
  APIGroups (newRule (parsed Scenario.kube Scenario.add_configmaps)) = [""]
  ∧ ∃ name r rules,
      objects (attempt o Scenario.roles).1 !! (NamespaceNone, name) = Some r
      ∧ Rules r = rules ++ [newRule o].
Proof.
  intros o.
  destruct appended_rule_nonempty as (_ & Hgroups & Hstored).
  split.
  - apply Hgroups. right. reflexivity.
  - apply (Hstored o Scenario.roles). vm_compute. reflexivity.
Defined.

End EditCRFacts.

(** ** What the loop retries *)

Module LoopFacts.
Import Retry Exec UpdaterFacts.

Section Discipline.
Context {T : Type} `{Resource T}.
Variables (ns name : string) (f : T → T).

Lemma run_discipline k (w wk : World T) last :
  (k < Steps DefaultRetry)%nat →
  retried IsConflict (Updater.attempt ns name f) k w wk last →
  (∀ w1 e, Get ns name wk = (w1, inl e) →
     Updater.run ns name f w =
       (w1, Some (Errorf_v "update failed: "
                    (Errorf_v "failed to get latest version fo Deployment: " e))))
  ∧ (∀ w1 d w2 e,
       Get ns name wk = (w1, inr d) →
       Update ns (f d) w1 = (w2, inl e) →
       if IsConflict e
       then retried IsConflict (Updater.attempt ns name f) (S k) w w2 (Some e)
            ∧ (S k = Steps DefaultRetry →
               Updater.run ns name f w = (w2, Some (Errorf_v "update failed: " e)))
       else Updater.run ns name f w = (w2, Some (Errorf_v "update failed: " e)))
  ∧ (∀ w1 d w2 y,
       Get ns name wk = (w1, inr d) →
       Update ns (f d) w1 = (w2, inr y) →
       Updater.run ns name f w = (w2, None)).
Proof.
  intros Hk Hr. split; [|split].
  - intros w1 e Hg. eapply run_fetch_error; eauto.
  - intros w1 d w2 e Hg Hu. destruct (IsConflict e) eqn:Hc.
    + assert (Hr' : retried IsConflict (Updater.attempt ns name f) (S k) w w2 (Some e)).
      { econstructor; [exact Hr| |exact Hc].
        eapply attempt_persist_error; eauto. }
      split; [exact Hr'|]. intros Hlast. rewrite Hlast in Hr'.
      destruct (run_exhausted _ _ _ _ _ _ Hr') as (e' & [= <-] & _ & Hrun).
      exact Hrun.
    + eapply run_persist_error; eauto.
  - intros w1 d w2 y Hg Hu. eapply run_persist_ok; eauto.
Qed.
End Discipline.

(** C2.  In the loop of the Deployment editor and in that of the
    ClusterRole editor, after any number [k] of attempts that ended in a
    conflict and with an attempt left: a failed fetch ends [Run] at once
    with that error (wrapped twice), in the world the fetch left; a
    refused write that is not a conflict ends [Run] at once with that
    error, in the world the write left; a refused write that is a
    conflict makes the attempt one more retried attempt, and ends [Run]
    only when it was the last the policy allows; an accepted write ends
    [Run] with success. *)
Theorem only_conflicts_retried :
  (∀ (o : EditDeploy.EditDeployOptions) ns k w wk last,
     EditDeploy.deploymentsClient o = Some ns →
     (k < Steps DefaultRetry)%nat →
     retried IsConflict (EditDeploy.attempt ns o) k w wk last →
     (∀ w1 e, Get ns (EditDeploy.deploymentName o) wk = (w1, inl e) →
        EditDeploy.Run o w =
          (w1, Err (Errorf_v "update failed: "
                      (Errorf_v "failed to get latest version fo Deployment: " e))))
     ∧ (∀ w1 d w2 e,
          Get ns (EditDeploy.deploymentName o) wk = (w1, inr d) →
          Update ns (EditDeploy.mutate o d) w1 = (w2, inl e) →
          if IsConflict e
          then retried IsConflict (EditDeploy.attempt ns o) (S k) w w2 (Some e)
               ∧ (S k = Steps DefaultRetry →
                  EditDeploy.Run o w = (w2, Err (Errorf_v "update failed: " e)))
          else EditDeploy.Run o w = (w2, Err (Errorf_v "update failed: " e)))
     ∧ (∀ w1 d w2 y,
          Get ns (EditDeploy.deploymentName o) wk = (w1, inr d) →
          Update ns (EditDeploy.mutate o d) w1 = (w2, inr y) →
          EditDeploy.Run o w = (w2, Ok tt)))
  ∧ (∀ (o : EditCR.EditDeployOptions) c k w wk last,
       EditCR.clusterRoleInterface o = Some c →
       (k < Steps DefaultRetry)%nat →
       retried IsConflict (EditCR.attempt o) k w wk last →
       (∀ w1 e,
          Get Rbac.NamespaceNone (EditCR.clusterRoleName o) wk = (w1, inl e) →
          EditCR.Run o w =
            (w1, Err (Errorf_v "update failed: "
                        (Errorf_v "failed to get latest version fo Deployment: " e))))
       ∧ (∀ w1 d w2 e,
            Get Rbac.NamespaceNone (EditCR.clusterRoleName o) wk = (w1, inr d) →
            Update Rbac.NamespaceNone (EditCR.mutate o d) w1 = (w2, inl e) →
            if IsConflict e
            then retried IsConflict (EditCR.attempt o) (S k) w w2 (Some e)
                 ∧ (S k = Steps DefaultRetry →
                    EditCR.Run o w = (w2, Err (Errorf_v "update failed: " e)))
            else EditCR.Run o w = (w2, Err (Errorf_v "update failed: " e)))
       ∧ (∀ w1 d w2 y,
            Get Rbac.NamespaceNone (EditCR.clusterRoleName o) wk = (w1, inr d) →
            Update Rbac.NamespaceNone (EditCR.mutate o d) w1 = (w2, inr y) →
            EditCR.Run o w = (w2, Ok tt))).
Proof.
  split.
  - intros o ns k w wk last Hcl Hk Hr.
    rewrite EditDeployFacts.attempt_shape in *.
    destruct (run_discipline ns (EditDeploy.deploymentName o) (EditDeploy.mutate o)
                k w wk last Hk Hr) as (Hf & Hp & Hs).
    split; [|split].
    + intros w1 e Hg. rewrite (EditDeployFacts.Run_shape _ _ _ Hcl).
      unfold check. rewrite (Hf _ _ Hg). reflexivity.
    + intros w1 d w2 e Hg Hu. specialize (Hp _ _ _ _ Hg Hu).
      rewrite (EditDeployFacts.Run_shape _ _ _ Hcl). unfold check.
      destruct (IsConflict e).
      * destruct Hp as [Hr' Hlast]. split; [exact Hr'|].
        intros HS. rewrite (Hlast HS). reflexivity.
      * rewrite Hp. reflexivity.
    + intros w1 d w2 y Hg Hu. rewrite (EditDeployFacts.Run_shape _ _ _ Hcl).
      unfold check. rewrite (Hs _ _ _ _ Hg Hu). reflexivity.
  - intros o c k w wk last Hcl Hk Hr.
    rewrite EditCRFacts.role_attempt_shape in *.
    destruct (run_discipline Rbac.NamespaceNone (EditCR.clusterRoleName o)
                (EditCR.mutate o) k w wk last Hk Hr) as (Hf & Hp & Hs).
    split; [|split].
    + intros w1 e Hg. rewrite (EditCRFacts.role_Run_shape _ _ _ Hcl).
      unfold check. rewrite (Hf _ _ Hg). reflexivity.
    + intros w1 d w2 e Hg Hu. specialize (Hp _ _ _ _ Hg Hu).
      rewrite (EditCRFacts.role_Run_shape _ _ _ Hcl). unfold check.
      destruct (IsConflict e).
      * destruct Hp as [Hr' Hlast]. split; [exact Hr'|].
        intros HS. rewrite (Hlast HS). reflexivity.
      * rewrite Hp. reflexivity.
    + intros w1 d w2 y Hg Hu. rewrite (EditCRFacts.role_Run_shape _ _ _ Hcl).
      unfold check. rewrite (Hs _ _ _ _ Hg Hu). reflexivity.
Qed.

(** One rival write is retried; the server's own error on the second
    write ends the run. *)
Lemma only_conflicts_retried_witness :
  let o := {| EditDeploy.configFlags := Scenario.kube;
              EditDeploy.deploymentsClient := Some "team-a";
              EditDeploy.newReplicas := 5; EditDeploy.newRhl := 10;
              EditDeploy.deploymentName := "web"; EditDeploy.args := ["web"] |} in
  EditDeploy.Run o Scenario.flaky
    = ({| objects :=
            {[ ("team-a", "web") :=
                 {| Apps.ObjectMeta := {| Name := "web"; Namespace := "team-a";
                                          ResourceVersion := 8 |};
                    Apps.Spec := {| Apps.Replicas := Some 4;
                                    Apps.RevisionHistoryLimit := Some 10 |} |} ]};
          pending := [];
          calls := [CallGet "team-a" "web"; CallUpdate "team-a" "web";
                    CallGet "team-a" "web"; CallUpdate "team-a" "web"] |},
       Err (errorString "update failed: etcdserver: request timed out")).
Proof.
  intros o.
  pose (w1 := (EditDeploy.attempt "team-a" o Scenario.flaky).1).
  pose (w2 := (Get "team-a" "web" w1).1).
  destruct only_conflicts_retried as [H _].
  destruct (H o "team-a" 1%nat Scenario.flaky w1
              (Some (StatusError StatusReasonConflict conflict_message))
              eq_refl) as (_ & Hp & _).
  - simpl. lia.
  - apply RetryFacts.retry_run_retried. vm_compute. reflexivity.
  - specialize (Hp w2
                  {| Apps.ObjectMeta := {| Name := "web"; Namespace := "team-a";
                                           ResourceVersion := 8 |};
                     Apps.Spec := {| Apps.Replicas := Some 4;
                                     Apps.RevisionHistoryLimit := Some 10 |} |}
                  (EditDeploy.Run o Scenario.flaky).1
                  (StatusError StatusReasonUnknown "etcdserver: request timed out")).
    simpl in Hp. rewrite Hp; [reflexivity| |]; vm_compute; reflexivity.
Defined.

End LoopFacts.

(** * Further properties *)

(** ** Invariants of the retry loop *)

Module LoopInvariants.
Import Retry.

Section Backoff.
Context {W : Type}.
Variables (retriable : error → bool) (fn : W → W * option error).
Variable P : W → Prop.
Hypothesis P_kept : ∀ w w' r, P w → fn w = (w', r) → P w'.

Lemma ExponentialBackoff_kept steps w l0 w' l' r :
  P w →
  ExponentialBackoff steps (condition retriable fn) (w, l0) = ((w', l'), r) →
  P w'.
Proof.
  revert w l0. induction steps as [|steps IH]; intros w l0 HP; simpl.
  - intros [= <- <- <-]. exact HP.
  - unfold condition at 1. destruct (fn w) as [w1 [e|]] eqn:Hfn.
    + pose proof (P_kept _ _ _ HP Hfn) as HP1.
      destruct (retriable e).
      * apply IH. exact HP1.
      * intros [= <- <- <-]. exact HP1.
    + intros [= <- <- <-]. exact (P_kept _ _ _ HP Hfn).
Qed.

(** Whatever holds before the loop and is kept by every attempt holds
    after it. *)
Lemma OnError_kept b w w' r :
  P w → OnError b retriable fn w = (w', r) → P w'.
Proof.
  unfold OnError. intros HP.
  destruct (ExponentialBackoff _ _ _) as [[w1 l1] r1] eqn:Hb.
  pose proof (ExponentialBackoff_kept _ _ _ _ _ _ HP Hb) as HP1.
  destruct r1 as [[]|]; intros [= <- <-]; exact HP1.
Qed.

Hypothesis fn_no_timeout : ∀ w w' e, fn w = (w', Some e) → e ≠ ErrWaitTimeout.

Lemma ExponentialBackoff_outcome steps w l0 w' l' r :
  P w →
  ExponentialBackoff steps (condition retriable fn) (w, l0) = ((w', l'), r) →
  match r with
  | None => ∃ w1, P w1 ∧ fn w1 = (w', None)
  | Some ErrWaitTimeout => (steps = 0%nat ∧ l' = l0) ∨ ∃ e, l' = Some e
  | Some _ => True
  end.
Proof.
  revert w l0. induction steps as [|steps IH]; intros w l0 HP; simpl.
  - intros [= <- <- <-]. left. split; reflexivity.
  - unfold condition at 1. destruct (fn w) as [w1 [e|]] eqn:Hfn.
    + pose proof (P_kept _ _ _ HP Hfn) as HP1.
      destruct (retriable e).
      * intros Hb. specialize (IH _ _ HP1 Hb).
        destruct r as [[]|]; try exact IH; try exact I.
        destruct IH as [[_ ->]|He]; right; eauto.
      * intros [= <- <- <-].
        pose proof (fn_no_timeout _ _ _ Hfn). destruct e; try exact I. congruence.
    + intros [= <- <- <-]. eauto.
Qed.

(** With an attempt allowed at all, the loop reports success only when
    its last attempt succeeded. *)
Lemma OnError_success_last b w w' :
  (0 < Steps b)%nat →
  P w → OnError b retriable fn w = (w', None) →
  ∃ w1, P w1 ∧ fn w1 = (w', None).
Proof.
  unfold OnError. intros Hs HP.
  destruct (ExponentialBackoff _ _ _) as [[w1 l1] r1] eqn:Hb.
  pose proof (ExponentialBackoff_outcome _ _ _ _ _ _ HP Hb) as Ho.
  destruct r1 as [[]|]; try discriminate.
  - intros [= <- ->]. destruct Ho as [[Hz _]|[e He]]; [lia|discriminate].
  - intros [= <-]. exact Ho.
Qed.
End Backoff.
End LoopInvariants.

(** ** What every run of the shared loop keeps *)

Module UpdaterInvariants.
Import Retry Updater Requests ClusterFacts RetryFacts UpdaterFacts LoopInvariants.

Section Keyed.
Context {T : Type} `{Resource T}.
Hypothesis meta_with_meta : ∀ m (x : T), meta (with_meta m x) = m.
Variables (ns name : string) (f : T → T).
Hypothesis f_meta : ∀ d, meta (f d) = meta d.
Implicit Types (w : World T).

Lemma store_well_keyed ns' name' (x : T) m :
  well_keyed m → well_keyed (store ns' name' x m).
Proof.
  intros Hwk ns0 name0 y. unfold store.
  destruct (decide ((ns', name') = (ns0, name0))) as [[= <- <-]|Hne].
  - rewrite lookup_insert_eq. intros [= <-]. unfold stamped.
    rewrite meta_with_meta. split; reflexivity.
  - rewrite lookup_insert_ne by exact Hne. apply Hwk.
Qed.

Lemma happen_well_keyed (ev : Event T) m :
  well_keyed m → well_keyed (happen ev m).
Proof.
  intros Hwk. destruct ev as [|ns' name' x|ns' name'|]; simpl; try exact Hwk.
  - apply store_well_keyed. exact Hwk.
  - intros ns0 name0 y Hy. apply lookup_delete_Some in Hy as [_ Hy].
    exact (Hwk _ _ _ Hy).
Qed.

Lemma arrive_well_keyed c w w1 e :
  arrive c w = (w1, e) → well_keyed (objects w) → well_keyed (objects w1).
Proof.
  unfold arrive. destruct (pending w) as [|ev evs]; intros [= <- <-] Hwk; simpl.
  - exact Hwk.
  - apply happen_well_keyed. exact Hwk.
Qed.

Lemma Get_well_keyed ns' name' w w1 r :
  Get ns' name' w = (w1, r) → well_keyed (objects w) → well_keyed (objects w1).
Proof.
  unfold Get. destruct (arrive _ w) as [w0 e] eqn:Ha.
  intros Hg Hwk. pose proof (arrive_well_keyed _ _ _ _ Ha Hwk) as Hwk0.
  destruct e; [|destruct (objects w0 !! _)]; injection Hg as <- _; exact Hwk0.
Qed.

Lemma Update_well_keyed ns' (x : T) w w1 r :
  Update ns' x w = (w1, r) → well_keyed (objects w) → well_keyed (objects w1).
Proof.
  unfold Update. destruct (arrive _ w) as [w0 e] eqn:Ha.
  intros Hu Hwk. pose proof (arrive_well_keyed _ _ _ _ Ha Hwk) as Hwk0.
  destruct e; [injection Hu as <- _; exact Hwk0|].
  destruct (objects w0 !! _); [|injection Hu as <- _; exact Hwk0].
  destruct (N.eqb _ _); injection Hu as <- _; [|exact Hwk0].
  simpl. apply store_well_keyed. exact Hwk0.
Qed.

Lemma kept_refl w : well_keyed (objects w) → kept ns name w w.
Proof. intros Hwk. split; [exact Hwk|]. exists []. rewrite app_nil_r. auto. Qed.

Lemma attempt_kept w0 w w' r :
  kept ns name w0 w → attempt ns name f w = (w', r) → kept ns name w0 w'.
Proof.
  intros [Hwk (l & Hl & Hall)]. unfold attempt.
  destruct (Get ns name w) as [w1 [e|d]] eqn:Hg.
  - intros [= <- <-]. split; [exact (Get_well_keyed _ _ _ _ _ Hg Hwk)|].
    apply Get_undisturbed in Hg as [_ Hc].
    exists (l ++ [CallGet ns name]). rewrite Hc, Hl, app_assoc. split; [reflexivity|].
    apply Forall_app. split; [exact Hall|].
    constructor; [left; reflexivity|constructor].
  - pose proof (Get_well_keyed _ _ _ _ _ Hg Hwk) as Hwk1.
    pose proof (Get_inr _ _ _ _ _ Hg) as Hd.
    destruct (Hwk1 _ _ _ Hd) as [Hname _].
    destruct (Update ns (f d) w1) as [w2 u] eqn:Hu.
    assert (Hc2 : calls w2 = calls w1 ++ [CallUpdate ns name]).
    { revert Hu. unfold Update, arrive. rewrite f_meta, Hname.
      destruct (pending w1); simpl.
      - destruct (objects w1 !! _); [destruct (N.eqb _ _)|]; intros [= <- _]; reflexivity.
      - destruct (fault _); [intros [= <- _]; reflexivity|].
        destruct (happen _ _ !! _); [destruct (N.eqb _ _)|]; intros [= <- _]; reflexivity. }
    pose proof (Update_well_keyed _ _ _ _ _ Hu Hwk1) as Hwk2.
    apply Get_undisturbed in Hg as [_ Hc].
    assert (Hk : kept ns name w0 w2).
    { split; [exact Hwk2|]. exists (l ++ [CallGet ns name; CallUpdate ns name]).
      rewrite Hc2, Hc, Hl, <- !app_assoc. split; [reflexivity|].
      apply Forall_app. split; [exact Hall|].
      constructor; [left; reflexivity|].
      constructor; [right; reflexivity|constructor]. }
    destruct u; intros [= <- <-]; exact Hk.
Qed.

Lemma attempt_no_timeout w w' e :
  attempt ns name f w = (w', Some e) → e ≠ ErrWaitTimeout.
Proof.
  unfold attempt. destruct (Get ns name w) as [w1 [e1|d]].
  - intros [= <- <-]. discriminate.
  - destruct (Update ns (f d) w1) as [w2 [e2|y]] eqn:Hu; [|discriminate].
    intros [= <- <-]. destruct (Update_inl_status _ _ _ _ _ Hu) as (? & ? & ->).
    discriminate.
Qed.

Lemma attempt_calls_bound w w' r :
  attempt ns name f w = (w', r) →
  (length (calls w') ≤ length (calls w) + 2)%nat.
Proof.
  unfold attempt. destruct (Get ns name w) as [w1 [e|d]] eqn:Hg.
  - intros [= <- <-]. apply Get_undisturbed in Hg as [_ ->].
    rewrite length_app. simpl. lia.
  - apply Get_undisturbed in Hg as [_ Hc].
    destruct (Update ns (f d) w1) as [w2 u] eqn:Hu.
    assert (length (calls w2) = S (length (calls w1))).
    { revert Hu. unfold Update, arrive.
      destruct (pending w1); simpl.
      - destruct (objects w1 !! _); [destruct (N.eqb _ _)|]; intros [= <- _];
          simpl; rewrite length_app; simpl; lia.
      - destruct (fault _); [intros [= <- _]; simpl; rewrite length_app; simpl; lia|].
        destruct (happen _ _ !! _); [destruct (N.eqb _ _)|]; intros [= <- _];
          simpl; rewrite length_app; simpl; lia. }
    rewrite Hc, length_app in *. simpl in *.
    destruct u; intros [= <- <-]; lia.
Qed.

Lemma backoff_calls_bound steps w l0 w' l' r :
  ExponentialBackoff steps (condition IsConflict (attempt ns name f)) (w, l0)
    = ((w', l'), r) →
  (length (calls w') ≤ length (calls w) + 2 * steps)%nat.
Proof.
  revert w l0. induction steps as [|steps IH]; intros w l0; simpl.
  - intros [= <- <- <-]. lia.
  - unfold condition at 1.
    destruct (attempt ns name f w) as [w1 [e|]] eqn:Ha;
      pose proof (attempt_calls_bound _ _ _ Ha) as Hb.
    + destruct (IsConflict e).
      * intros Hx. apply IH in Hx. lia.
      * intros [= <- <- <-]. lia.
    + intros [= <- <- <-]. lia.
Qed.

(** Whatever the other clients do and however it ends, the loop sends at
    most ten requests, all of them reads and writes of the one object,
    and leaves the store well keyed. *)
Lemma run_requests w w' r :
  well_keyed (objects w) →
  run ns name f w = (w', r) →
  well_keyed (objects w')
  ∧ ∃ l, calls w' = calls w ++ l ∧ Forall (about ns name) l ∧ (length l ≤ 10)%nat.
Proof.
  intros Hwk. unfold run, RetryOnConflict.
  destruct (OnError _ _ _ w) as [w1 r1] eqn:Ho. intros Hr.
  assert (w1 = w') as -> by (destruct r1; congruence).
  destruct (OnError_kept IsConflict (attempt ns name f) (kept ns name w)
              (fun a b c Hk Ha => attempt_kept w a b c Hk Ha)
              DefaultRetry w w' r1 (kept_refl w Hwk) Ho) as [Hwk' (l & Hl & Hall)].
  split; [exact Hwk'|]. exists l. split; [exact Hl|]. split; [exact Hall|].
  unfold OnError in Ho.
  destruct (ExponentialBackoff _ _ _) as [[w2 l2] r2] eqn:Hb.
  apply backoff_calls_bound in Hb.
  assert (w2 = w') as -> by (destruct r2 as [[]|]; congruence).
  rewrite Hl, length_app in Hb. simpl in Hb. lia.
Qed.

(** A run that reports success has had its last write accepted: the
    object stored is the one its last read fetched, changed by [f]. *)
Lemma run_success_stored w w' :
  well_keyed (objects w) →
  run ns name f w = (w', None) →
  ∃ w1 w2 d v,
    Get ns name w1 = (w2, inr d)
    ∧ objects w' !! (ns, name)
      = Some (with_meta {| Name := name; Namespace := ns; ResourceVersion := v |} (f d)).
Proof.
  intros Hwk. unfold run, RetryOnConflict.
  destruct (OnError _ _ _ w) as [w1 [e|]] eqn:Ho; [discriminate|].
  intros [= <-].
  destruct (OnError_success_last IsConflict (attempt ns name f)
              (fun w => well_keyed (objects w))
              (fun a b c Hk Ha => proj1 (attempt_kept a a b c (kept_refl a Hk) Ha))
              attempt_no_timeout DefaultRetry w w1 ltac:(simpl; lia) Hwk Ho)
    as (w0 & Hwk0 & Ha).
  unfold attempt in Ha. destruct (Get ns name w0) as [w2 [e|d]] eqn:Hg; [discriminate|].
  destruct (Update ns (f d) w2) as [w3 [e|y]] eqn:Hu; [discriminate|].
  injection Ha as <-.
  pose proof (Get_well_keyed _ _ _ _ _ Hg Hwk0) as Hwk2.
  destruct (Hwk2 _ _ _ (Get_inr _ _ _ _ _ Hg)) as [Hname _].
  destruct (Update_inr_stored _ _ _ _ _ Hu) as [v Hv].
  rewrite f_meta, Hname in Hv. eauto 10.
Qed.

Lemma ExponentialBackoff_S {St : Type} k
    (c : St → St * (bool * option error)) (s : St) :
  ExponentialBackoff (S k) c s =
    let '(s1, (ok, err)) := c s in
    match err with
    | Some e => (s1, Some e)
    | None => if ok then (s1, None) else ExponentialBackoff k c s1
    end.
Proof. reflexivity. Qed.

Lemma attempt_first_read w w' r :
  well_keyed (objects w) →
  attempt ns name f w = (w', r) →
  ∃ l, calls w' = calls w ++ CallGet ns name :: l ∧ Forall (about ns name) l.
Proof.
  intros Hwk Ha.
  destruct (attempt_kept w w w' r (kept_refl w Hwk) Ha) as [_ (l & Hl & Hall)].
  revert Ha. unfold attempt.
  destruct (Get ns name w) as [w1 g] eqn:Hg.
  apply Get_undisturbed in Hg as [_ Hc]. intros Ha.
  assert (Hext : ∃ l1, calls w' = calls w1 ++ l1).
  { destruct g as [e|d]; [injection Ha as <- _; exists []; rewrite app_nil_r; reflexivity|].
    destruct (Update ns (f d) w1) as [w2 u] eqn:Hu.
    assert (w2 = w') as -> by (destruct u; congruence).
    revert Hu. unfold Update, arrive. destruct (pending w1); simpl.
    - destruct (objects w1 !! _); [destruct (N.eqb _ _)|]; intros [= <- _]; simpl; eauto.
    - destruct (fault _); [intros [= <- _]; simpl; eauto|].
      destruct (happen _ _ !! _); [destruct (N.eqb _ _)|]; intros [= <- _]; simpl; eauto. }
  destruct Hext as [l1 Hl1]. rewrite Hc, <- app_assoc in Hl1. simpl in Hl1.
  exists l1. split; [exact Hl1|].
  rewrite Hl in Hl1. apply app_inv_head in Hl1. subst l.
  inversion Hall; assumption.
Qed.

(** The loop begins with a read of the object, and all that follows is
    about the object too. *)
Lemma run_first_read w w' r :
  well_keyed (objects w) →
  run ns name f w = (w', r) →
  ∃ l, calls w' = calls w ++ CallGet ns name :: l ∧ Forall (about ns name) l.
Proof.
  intros Hwk. unfold run, RetryOnConflict, OnError.
  change (Steps DefaultRetry) with 5%nat. rewrite ExponentialBackoff_S.
  unfold condition at 1.
  destruct (attempt ns name f w) as [w1 r1] eqn:Ha.
  destruct (attempt_first_read _ _ _ Hwk Ha) as (l1 & Hl1 & Hall1).
  pose proof (attempt_kept w w w1 r1 (kept_refl w Hwk) Ha) as [Hwk1 _].
  assert (Hdone : ∀ w2 : World T, w2 = w1 →
            ∃ l, calls w2 = calls w ++ CallGet ns name :: l ∧ Forall (about ns name) l).
  { intros w2 ->. eauto. }
  destruct r1 as [e|].
  - destruct (IsConflict e).
    + destruct (ExponentialBackoff 4 _ _) as [[w2 l2] r2] eqn:Hb.
      pose proof (ExponentialBackoff_kept IsConflict (attempt ns name f) (kept ns name w1)
                    (fun a b c Hk Hx => attempt_kept w1 a b c Hk Hx)
                    4 w1 (Some e) w2 l2 r2 (kept_refl w1 Hwk1) Hb)
        as [_ (l & Hl & Hall)].
      intros Hr. assert (w2 = w') as ->.
      { destruct r2 as [[]|]; [| |destruct l2|]; congruence. }
      exists (l1 ++ l). rewrite Hl, Hl1, <- app_assoc. split; [reflexivity|].
      apply Forall_app. split; assumption.
    + intros Hr. apply Hdone. destruct e; congruence.
  - intros Hr. apply Hdone. congruence.
Qed.
End Keyed.
End UpdaterInvariants.

(** ** Runs that fail write nothing *)

Module IdleFacts.
Import Retry Updater Requests ClusterFacts RetryFacts UpdaterFacts.

Section Idle.
Context {T : Type} `{Resource T}.
Variables (ns name : string) (f : T → T).
Implicit Types (w : World T).

Lemma idle_refl w : idle w w.
Proof. exists 0%nat. split; [lia|reflexivity]. Qed.

Lemma idle_trans w1 w2 w3 : idle w1 w2 → idle w2 w3 → idle w1 w3.
Proof.
  intros (n & Hc & Hu) (k & Hc' & Hu'). exists (n + k)%nat. split; [lia|].
  exact (undisturbed_step n k _ _ _ Hu Hu').
Qed.

Lemma Get_idle ns' name' w w1 r : Get ns' name' w = (w1, r) → idle w w1.
Proof.
  intros Hg. apply Get_undisturbed in Hg as [Hu Hc]. exists 1%nat.
  split; [rewrite Hc, length_app; reflexivity|exact Hu].
Qed.

Lemma Update_inl_idle ns' (x : T) w w1 e :
  Update ns' x w = (w1, inl e) → idle w w1.
Proof.
  intros Hg. apply Update_inl_undisturbed in Hg as [Hu Hc]. exists 1%nat.
  split; [rewrite Hc, length_app; reflexivity|exact Hu].
Qed.

Lemma attempt_error_idle w w' e :
  attempt ns name f w = (w', Some e) → idle w w'.
Proof.
  unfold attempt. destruct (Get ns name w) as [w1 [e1|d]] eqn:Hg.
  - intros [= <- <-]. exact (Get_idle _ _ _ _ _ Hg).
  - destruct (Update ns (f d) w1) as [w2 [e2|y]] eqn:Hu; [|discriminate].
    intros [= <- <-].
    exact (idle_trans _ _ _ (Get_idle _ _ _ _ _ Hg) (Update_inl_idle _ _ _ _ _ Hu)).
Qed.

Lemma backoff_error_idle steps w l0 w' l' e :
  ExponentialBackoff steps (condition IsConflict (attempt ns name f)) (w, l0)
    = ((w', l'), Some e) →
  idle w w'.
Proof.
  revert w l0. induction steps as [|steps IH]; intros w l0; simpl.
  - intros [= <- <- <-]. apply idle_refl.
  - unfold condition at 1.
    destruct (attempt ns name f w) as [w1 [e1|]] eqn:Ha; [|discriminate].
    pose proof (attempt_error_idle _ _ _ Ha) as Hi.
    destruct (IsConflict e1).
    + intros Hb. exact (idle_trans _ _ _ Hi (IH _ _ Hb)).
    + intros [= <- <- <-]. exact Hi.
Qed.

(** A loop that ends in an error has only read and been refused. *)
Lemma run_error_idle w w' e :
  run ns name f w = (w', Some e) → idle w w'.
Proof.
  unfold run, RetryOnConflict, OnError.
  destruct (ExponentialBackoff _ _ _) as [[w1 l1] [e1|]] eqn:Hb; [|discriminate].
  apply backoff_error_idle in Hb.
  destruct e1; (destruct l1; [|try discriminate]); intros [= <- <-]; exact Hb.
Qed.
End Idle.
End IdleFacts.

(** ** Stored Deployments *)

Module AppsFacts.
Import Apps ClusterFacts UpdaterInvariants.

Lemma Deployment_meta_with_meta m (x : Deployment) : meta (with_meta m x) = m.
Proof. reflexivity. Qed.

Lemma well_keyed_singleton ns name (x : Deployment) :
  Name (ObjectMeta x) = name → Namespace (ObjectMeta x) = ns →
  well_keyed ({[ (ns, name) := x ]} : gmap (string * string) Deployment).
Proof.
  intros Hn Hs ns0 name0 y Hy.
  apply lookup_singleton_Some in Hy as [[= <- <-] <-]. split; assumption.
Qed.

Lemma slot_well_keyed (w w1 : World Deployment) :
  (objects w1, pending w1) = undisturbed 1 (objects w) (pending w) →
  well_keyed (objects w) → well_keyed (objects w1).
Proof.
  simpl. destruct (pending w) as [|ev evs]; intros [= -> _] Hwk; [exact Hwk|].
  exact (happen_well_keyed Deployment_meta_with_meta ev _ Hwk).
Qed.

End AppsFacts.

(** ** More on src/edit_deploy/kubectl-edit_deploy.go *)

Module EditDeployMore.
Import Apps Exec Retry Cobra Requests EditDeploy.
Import ClusterFacts RetryFacts UpdaterFacts EditDeployFacts.
Import UpdaterInvariants IdleFacts AppsFacts.

Lemma mutate_meta o d : meta (mutate o d) = meta d.
Proof. reflexivity. Qed.

(** What [Complete] leaves behind, whatever it answers. *)
Lemma Complete_steps o a w w1 r :
  Complete o a w = (w1, r) →
  idle w w1
  ∧ (well_keyed (objects w) → well_keyed (objects w1))
  ∧ ((calls w1 = calls w ∧ ∀ o1, r ≠ Ok o1)
     ∨ ∃ ns, calls w1 = calls w ++ [CallGet ns (hd (deploymentName o) a)]).
Proof.
  intros Hc.
  destruct (Complete_undisturbed _ _ _ _ _ Hc) as [[-> Hno]|(ns & Hcalls & Hu)].
  - split; [apply idle_refl|]. split; [auto|]. left. auto.
  - split; [|split].
    + exists 1%nat. split; [rewrite Hcalls, length_app; reflexivity|exact Hu].
    + exact (slot_well_keyed _ _ Hu).
    + right. eauto.
Qed.

(** X1.  However the other clients interfere and however the run ends,
    the command sends at most eleven requests (one read by [Complete],
    at most five reads and five writes by [Run]), every one of them a
    read or a write of the Deployment named by the first argument, all
    in one namespace; and a well-keyed store stays well keyed. *)
Theorem requests_bounded kube cl w w' r :
  well_keyed (objects w) →
  NewCmdEdit kube cl w = (w', r) →
  well_keyed (objects w')
  ∧ ∃ ns l,
      calls w' = calls w ++ l
      ∧ Forall (about ns (hd "" (positional cl))) l
      ∧ (length l ≤ 11)%nat.
Proof.
  intros Hwk. unfold NewCmdEdit, RunE, bind.
  destruct (Complete _ _ w) as [w1 ro] eqn:Hc.
  destruct (Complete_steps _ _ _ _ _ Hc) as (_ & Hwk1 & Hcalls).
  specialize (Hwk1 Hwk). simpl in Hcalls.
  destruct ro as [o1|e|].
  2,3: intros [= <- <-]; split; [exact Hwk1|];
       destruct Hcalls as [[Hsame _]|[ns Hget]];
       [exists "", []; rewrite app_nil_r; repeat split; [exact Hsame|constructor|simpl; lia]
       |exists ns, [CallGet ns (hd "" (positional cl))]; repeat split;
        [exact Hget|constructor; [left; reflexivity|constructor]|simpl; lia]].
  destruct (Complete_Ok_inv _ _ _ _ _ Hc)
    as (raw & ns & d & _ & _ & Hcl & Hg & _ & Hname & _).
  assert (Hname' : deploymentName o1 = hd "" (positional cl)).
  { rewrite Hname. destruct (positional cl); reflexivity. }
  apply Get_undisturbed in Hg as [_ Hget]. rewrite Hname' in Hget.
  unfold check at 1. destruct (Validate o1).
  { intros [= <- <-]. split; [exact Hwk1|].
    exists ns, [CallGet ns (hd "" (positional cl))]. repeat split;
      [exact Hget|constructor; [left; reflexivity|constructor]|simpl; lia]. }
  rewrite (Run_shape _ _ _ Hcl). unfold check.
  destruct (Updater.run _ _ _ w1) as [w2 r2] eqn:Hrun. intros Hr.
  assert (w2 = w') as -> by (destruct r2; congruence).
  destruct (run_requests Deployment_meta_with_meta ns (deploymentName o1) (mutate o1)
              (mutate_meta o1) w1 w' r2 Hwk1 Hrun) as (Hwk' & l & Hl & Hall & Hlen).
  split; [exact Hwk'|]. rewrite Hname' in Hall.
  exists ns, (CallGet ns (hd "" (positional cl)) :: l).
  split; [rewrite Hl, Hget, <- app_assoc; reflexivity|].
  split; [constructor; [left; reflexivity|exact Hall]|simpl; lia].
Qed.

(** Five lost races: eleven requests. *)
Lemma requests_bounded_witness :
  ∃ ns l,
    calls (NewCmdEdit Scenario.kube Scenario.scale_to_5 Scenario.contended).1
      = calls Scenario.contended ++ l
    ∧ Forall (about ns "web") l
    ∧ (length l ≤ 11)%nat.
Proof.
  apply (requests_bounded Scenario.kube Scenario.scale_to_5 Scenario.contended
           (NewCmdEdit Scenario.kube Scenario.scale_to_5 Scenario.contended).1
           (NewCmdEdit Scenario.kube Scenario.scale_to_5 Scenario.contended).2).
  - apply well_keyed_singleton; reflexivity.
  - apply surjective_pairing.
Defined.

(** X2.  A run that does not end in success has written nothing: the
    store holds what the events of the other clients alone made of it
    during the requests the run sent. *)
Theorem failure_writes_nothing kube cl w w' r :
  NewCmdEdit kube cl w = (w', r) →
  r ≠ Ok tt →
  idle w w'.
Proof.
  unfold NewCmdEdit, RunE, bind.
  destruct (Complete _ _ w) as [w1 ro] eqn:Hc.
  destruct (Complete_steps _ _ _ _ _ Hc) as (Hidle & _ & _).
  destruct ro as [o1|e|]; [|intros [= <- <-] _; exact Hidle..].
  unfold check at 1. destruct (Validate o1).
  { intros [= <- <-] _. exact Hidle. }
  destruct (Complete_Ok_inv _ _ _ _ _ Hc) as (raw & ns & d & _ & _ & Hcl & _).
  rewrite (Run_shape _ _ _ Hcl). unfold check.
  destruct (Updater.run _ _ _ w1) as [w2 [e|]] eqn:Hrun.
  - intros [= <- <-] _. exact (idle_trans _ _ _ Hidle (run_error_idle _ _ _ _ _ _ Hrun)).
  - intros [= <- <-] Hne. exfalso. apply Hne. reflexivity.
Qed.

(** Five lost races: the store holds the rivals' writes only. *)
Lemma failure_writes_nothing_witness :
  idle Scenario.contended
    (NewCmdEdit Scenario.kube Scenario.scale_to_5 Scenario.contended).1.
Proof.
  apply (failure_writes_nothing Scenario.kube Scenario.scale_to_5
           Scenario.contended _
           (NewCmdEdit Scenario.kube Scenario.scale_to_5 Scenario.contended).2).
  - apply surjective_pairing.
  - vm_compute. discriminate.
Defined.

(** What a run that ends in success has done. *)
Lemma success_inv kube cl w w' :
  well_keyed (objects w) →
  NewCmdEdit kube cl w = (w', Ok tt) →
  ∃ ns a o1 w1 d0 v,
    positional cl = [a] ∧ a ≠ ""
    ∧ Get ns a w = (w1, inr d0)
    ∧ (if newReplicas (parsed kube cl) <=? 0
       then Replicas (Spec d0) = Some (newReplicas o1)
       else newReplicas o1 = newReplicas (parsed kube cl))
    ∧ (if newRhl (parsed kube cl) <? 0
       then RevisionHistoryLimit (Spec d0) = Some (newRhl o1)
       else newRhl o1 = newRhl (parsed kube cl))
    ∧ 0 < newReplicas o1 ∧ 0 ≤ newRhl o1
    ∧ objects w' !! (ns, a)
      = Some {| ObjectMeta := {| Name := a; Namespace := ns; ResourceVersion := v |};
                Spec := {| Replicas := Some (newReplicas o1);
                           RevisionHistoryLimit := Some (newRhl o1) |} |}.
Proof.
  intros Hwk. unfold NewCmdEdit, RunE, bind.
  destruct (Complete _ _ w) as [w1 ro] eqn:Hc.
  destruct (Complete_steps _ _ _ _ _ Hc) as (_ & Hwk1 & _). specialize (Hwk1 Hwk).
  destruct ro as [o1|e|]; [|discriminate..].
  destruct (Complete_Ok_inv _ _ _ _ _ Hc)
    as (raw & ns & d0 & _ & _ & Hcl & Hg & Hargs & Hname & Hne & Hn & Hh).
  unfold check at 1. destruct (Validate o1) eqn:Hv; [discriminate|].
  apply Validate_None in Hv as (Hlen & Hn0 & Hh0).
  rewrite (Run_shape _ _ _ Hcl). unfold check.
  destruct (Updater.run _ _ _ w1) as [w2 [e|]] eqn:Hrun; [discriminate|].
  intros [= <-].
  destruct (run_success_stored Deployment_meta_with_meta ns (deploymentName o1)
              (mutate o1) (mutate_meta o1) w1 w2 Hwk1 Hrun)
    as (wa & wb & d & v & _ & Hst).
  rewrite Hargs in Hlen.
  destruct (positional cl) as [|a [|]] eqn:Hpos; try discriminate.
  simpl in Hname. rewrite Hname in *.
  exists ns, a, o1, w1, d0, v. repeat split; try assumption.
Qed.

(** X3.  Whatever the other clients do, a run that ends in success had
    exactly one argument and leaves stored, under that name, a positive
    replica count and a limit that is not negative; they are the values
    of --replicas and --rhl where these were given with such values. *)
Theorem success_stores_valid kube cl w w' :
  well_keyed (objects w) →
  NewCmdEdit kube cl w = (w', Ok tt) →
  ∃ ns a d' n h,
    positional cl = [a] ∧ a ≠ ""
    ∧ objects w' !! (ns, a) = Some d'
    ∧ Spec d' = {| Replicas := Some n; RevisionHistoryLimit := Some h |}
    ∧ 0 < n ∧ 0 ≤ h
    ∧ (∀ N, replicas cl = Some N → 0 < N → n = N)
    ∧ (∀ H, rhl cl = Some H → 0 ≤ H → h = H).
Proof.
  intros Hwk HE.
  destruct (success_inv _ _ _ _ Hwk HE)
    as (ns & a & o1 & w1 & d0 & v & Hpos & Ha & _ & Hn & Hh & Hn0 & Hh0 & Hst).
  eexists ns, a, _, (newReplicas o1), (newRhl o1).
  split; [exact Hpos|]. split; [exact Ha|]. split; [exact Hst|].
  split; [reflexivity|]. split; [exact Hn0|]. split; [exact Hh0|]. split.
  - intros N HN HN0. simpl in Hn. rewrite HN in Hn. simpl in Hn.
    destruct (Z.leb_spec N 0); [lia|exact Hn].
  - intros H0 HH HH0. simpl in Hh. rewrite HH in Hh. simpl in Hh.
    destruct (Z.ltb_spec H0 0); [lia|exact Hh].
Qed.

(** edit-deploy web --replicas=5 while another client raises the limit. *)
Lemma success_stores_valid_witness :
  ∃ ns a d' n h,
    EditDeploy.positional Scenario.scale_to_5 = [a] ∧ a ≠ ""
    ∧ objects (NewCmdEdit Scenario.kube Scenario.scale_to_5 Drift.limit_raised).1
        !! (ns, a) = Some d'
    ∧ Spec d' = {| Replicas := Some n; RevisionHistoryLimit := Some h |}
    ∧ 0 < n ∧ 0 ≤ h
    ∧ (∀ N, replicas Scenario.scale_to_5 = Some N → 0 < N → n = N)
    ∧ (∀ H, rhl Scenario.scale_to_5 = Some H → 0 ≤ H → h = H).
Proof.
  apply (success_stores_valid Scenario.kube Scenario.scale_to_5 Drift.limit_raised).
  - apply well_keyed_singleton; reflexivity.
  - vm_compute. reflexivity.
Defined.

(** X4.  The values [Run] writes for the fields the command line left
    open are those of the first read of the run, the one [Complete]
    sends: a run that ends in success leaves stored the replica count
    (no positive --replicas) and the limit (no --rhl, or a negative one)
    that this read returned, whatever the Deployment held when the write
    landed. *)
Theorem open_fields_from_first_read kube cl w w' :
  well_keyed (objects w) →
  NewCmdEdit kube cl w = (w', Ok tt) →
  ∃ ns a w1 d0 d',
    positional cl = [a]
    ∧ Get ns a w = (w1, inr d0)
    ∧ objects w' !! (ns, a) = Some d'
    ∧ (newReplicas (parsed kube cl) ≤ 0 →
       Replicas (Spec d') = Replicas (Spec d0))
    ∧ (newRhl (parsed kube cl) < 0 →
       RevisionHistoryLimit (Spec d') = RevisionHistoryLimit (Spec d0)).
Proof.
  intros Hwk HE.
  destruct (success_inv _ _ _ _ Hwk HE)
    as (ns & a & o1 & w1 & d0 & v & Hpos & Ha & Hg & Hn & Hh & _ & _ & Hst).
  eexists ns, a, w1, d0, _.
  split; [exact Hpos|]. split; [exact Hg|]. split; [exact Hst|]. split.
  - intros Hle. destruct (Z.leb_spec (newReplicas (parsed kube cl)) 0); [|lia].
    simpl. congruence.
  - intros Hlt. destruct (Z.ltb_spec (newRhl (parsed kube cl)) 0); [|lia].
    simpl. congruence.
Qed.

(** Another client raises the limit of [web] from 10 to 20 after
    [Complete] has read it: edit-deploy web --replicas=5 puts 10 back. *)
Lemma open_fields_from_first_read_witness :
  objects (NewCmdEdit Scenario.kube Scenario.scale_to_5 Drift.limit_raised).1
    !! ("team-a", "web")
  = Some {| ObjectMeta := {| Name := "web"; Namespace := "team-a";
                             ResourceVersion := 9 |};
            Spec := {| Replicas := Some 5; RevisionHistoryLimit := Some 10 |} |}.
Proof.
  destruct (open_fields_from_first_read Scenario.kube Scenario.scale_to_5
              Drift.limit_raised
              (NewCmdEdit Scenario.kube Scenario.scale_to_5 Drift.limit_raised).1)
    as (ns & a & w1 & d0 & d' & _).
  - apply well_keyed_singleton; reflexivity.
  - vm_compute. reflexivity.
  - vm_compute. reflexivity.
Defined.

(** X5.  In a quiet cluster, when no Deployment of the given name is
    stored in the resolved namespace, the command fails in [Complete]
    with the server's not-found error itself, after one read and before
    the arguments are counted. *)
Theorem missing_deployment kube cl w raw ns a rest :
  quiet w →
  positional cl = a :: rest → a ≠ "" →
  Genericclioptions.restConfig kube = None →
  Genericclioptions.rawConfig kube = inr raw →
  Genericclioptions.newForConfig kube = None →
  (userSpecifiedNamespace (parsed kube cl) raw w).2 = Ok ns →
  objects w !! (ns, a) = None →
  ∃ e,
    NewCmdEdit kube cl w =
      ({| objects := objects w; pending := []; calls := calls w ++ [CallGet ns a] |},
       Err e)
    ∧ IsNotFound e = true.
Proof.
  intros Hq Hpos Ha Hrest Hraw Hnew Hns Hd.
  assert (HE : NewCmdEdit kube cl w =
      ({| objects := objects w; pending := []; calls := calls w ++ [CallGet ns a] |},
       Err (StatusError StatusReasonNotFound (a +:+ " not found"))));
    [|eexists; split; [exact HE|reflexivity]].
  unfold NewCmdEdit, RunE, bind at 1. rewrite Hpos.
  unfold Complete, bind, pure, call,
    Genericclioptions.ToRESTConfig, Genericclioptions.RawConfig,
    Genericclioptions.NewForConfig.
  simpl. apply len_nonzero in Ha. rewrite Ha, Hrest, Hraw, Hnew.
  match goal with
  | |- context [userSpecifiedNamespace ?o' raw w] =>
      rewrite (userSpecifiedNamespace_flags o' (parsed kube cl) raw w eq_refl)
  end.
  rewrite (userSpecifiedNamespace_Ok _ _ _ _ Hns w).
  rewrite (Get_quiet ns a w Hq), Hd. reflexivity.
Qed.

(** edit-deploy api --replicas=2 where only [web] exists. *)
Lemma missing_deployment_witness :
  ∃ e,
    NewCmdEdit Scenario.kube Drift.scale_api Scenario.cluster =
      ({| objects := objects Scenario.cluster; pending := [];
          calls := [CallGet "team-a" "api"] |}, Err e)
    ∧ IsNotFound e = true.
Proof.
  apply (missing_deployment Scenario.kube Drift.scale_api Scenario.cluster
           {| Clientcmd.Contexts := {[ "dev" := {| Clientcmd.Namespace := "team-a" |} ]};
              Clientcmd.CurrentContext := "dev" |} "team-a" "api" []);
    try reflexivity.
  discriminate.
Defined.

(** X6.  The command line gives a name and no --namespace flag, and the
    raw kubeconfig loads but does not hold the context it names as
    current.  What happens is decided by the two calls that come before
    the lookup of the context (lines 100-115).  When [ToRESTConfig]
    returns an error, or [NewForConfig] does after it, [Complete]
    returns that error: exit status 1, no panic.  Only when both
    succeed does [Complete] reach line 122 and read the Namespace of a
    nil context: the process stops on a panic, exit status 2.  In every
    case no request has been sent. *)
Theorem nil_context_panics kube cl w raw a rest :
  positional cl = a :: rest → a ≠ "" →
  Genericclioptions.rawConfig kube = inr raw →
  Genericclioptions.Namespace (configFlags (parsed kube cl)) = "" →
  Clientcmd.Contexts raw !! Clientcmd.CurrentContext raw = None →
  match Genericclioptions.restConfig kube, Genericclioptions.newForConfig kube with
  | Some e, _ | None, Some e =>
      NewCmdEdit kube cl w = (w, Err e) ∧ main kube cl w = (w, 1)
  | None, None =>
      NewCmdEdit kube cl w = (w, Panic) ∧ main kube cl w = (w, 2)
  end.
Proof.
  intros Hpos Ha Hraw Hflag Hctx.
  unfold main, NewCmdEdit, RunE, bind at 1. rewrite Hpos.
  unfold Complete, bind, pure, call,
    Genericclioptions.ToRESTConfig, Genericclioptions.RawConfig,
    Genericclioptions.NewForConfig.
  simpl. apply len_nonzero in Ha. rewrite Ha, Hraw.
  destruct (Genericclioptions.restConfig kube) as [e|];
    [split; reflexivity|].
  destruct (Genericclioptions.newForConfig kube) as [e|];
    [split; reflexivity|].
  match goal with
  | |- context [userSpecifiedNamespace ?o' raw w] =>
      rewrite (namespace_nil_context o' raw w Hflag Hctx)
  end.
  split; reflexivity.
Qed.

(** edit-deploy web --replicas=5 from inside the cluster, where the
    REST configuration is built although the kubeconfig is empty, and
    with a kubeconfig whose current-context is misspelt, which the
    loader refuses. *)
Lemma nil_context_panics_witness :
  main Drift.kube_in_cluster Scenario.scale_to_5 Scenario.cluster
    = (Scenario.cluster, 2)
  ∧ main Drift.kube_dangling Scenario.scale_to_5 Scenario.cluster
    = (Scenario.cluster, 1).
Proof.
  split.
  - refine (proj2 (nil_context_panics Drift.kube_in_cluster Scenario.scale_to_5
                     Scenario.cluster
                     {| Clientcmd.Contexts := ∅; Clientcmd.CurrentContext := "" |}
                     "web" [] eq_refl _ eq_refl eq_refl eq_refl)).
    discriminate.
  - refine (proj2 (nil_context_panics Drift.kube_dangling Scenario.scale_to_5
                     Scenario.cluster
                     {| Clientcmd.Contexts :=
                          {[ "dev" := {| Clientcmd.Namespace := "team-a" |} ]};
                        Clientcmd.CurrentContext := "prod" |}
                     "web" [] eq_refl _ eq_refl eq_refl eq_refl)).
    discriminate.
Defined.

End EditDeployMore.

(** ** More on src/edit_cr/kubectl-edit_cr.go *)

Module EditCRMore.
Import Rbac Exec Retry Cobra Requests EditCR.
Import ClusterFacts RetryFacts UpdaterFacts EditCRFacts.
Import UpdaterInvariants IdleFacts.

Lemma ClusterRole_meta_with_meta m (x : ClusterRole) : meta (with_meta m x) = m.
Proof. reflexivity. Qed.

Lemma role_mutate_meta o d : meta (mutate o d) = meta d.
Proof. reflexivity. Qed.

Lemma role_well_keyed_singleton name (x : ClusterRole) :
  Name (ObjectMeta x) = name → Namespace (ObjectMeta x) = NamespaceNone →
  well_keyed ({[ (NamespaceNone, name) := x ]} : gmap (string * string) ClusterRole).
Proof.
  intros Hn Hs ns0 name0 y Hy.
  apply lookup_singleton_Some in Hy as [[= <- <-] <-]. split; assumption.
Qed.

(** [Complete] sends nothing; when it succeeds it has only taken the
    name and built the client. *)
Lemma role_Complete_pure o a w w1 r :
  Complete o a w = (w1, r) →
  w1 = w
  ∧ ∀ o1, r = Ok o1 →
      args o1 = a
      ∧ clusterRoleName o1 = hd (clusterRoleName o) a
      ∧ clusterRoleName o1 ≠ ""
      ∧ newVerbs o1 = newVerbs o
      ∧ newApiGroups o1 = newApiGroups o
      ∧ newResources o1 = newResources o
      ∧ clusterRoleInterface o1 = Some tt.
Proof.
  unfold Complete, bind, pure, call, ret, fail.
  intros Hx. exec_inv.
  all: split; [reflexivity|]; intros o1 [= <-]; simpl.
  all: match goal with
       | Hl : (len _ =? 0) = false |- _ => apply len_nonzero in Hl; simpl in Hl
       end.
  all: repeat split; try assumption.
  all: match goal with |- Some ?u = Some tt => destruct u; reflexivity end.
Qed.

Lemma role_Validate_None o :
  Validate o = None ↔
  length (args o) = 1%nat ∧ newVerbs o ≠ "" ∧ newResources o ≠ "".
Proof.
  unfold Validate. rewrite <- !len_nonzero.
  destruct (Nat.eqb_spec (length (args o)) 1); simpl;
    [|split; [discriminate|intros [? _]; contradiction]].
  destruct (len (newVerbs o) =? 0); [split; [discriminate|intros (_ & ? & _); discriminate]|].
  destruct (len (newResources o) =? 0); split; try discriminate; auto.
  intros (_ & _ & ?). discriminate.
Qed.

(** X7.  The ClusterRole editor sends a request only for a command line
    that passes all its checks: whenever anything was sent, there was
    exactly one argument, not empty, and --verbs and --resources were
    given and not empty. *)
Theorem role_requests_only_when_valid kube cl w w' r :
  NewCmdEdit kube cl w = (w', r) →
  calls w' ≠ calls w →
  ∃ a v rs,
    positional cl = [a] ∧ a ≠ ""
    ∧ verbs cl = Some v ∧ v ≠ ""
    ∧ resources cl = Some rs ∧ rs ≠ "".
Proof.
  unfold NewCmdEdit, RunE, bind.
  destruct (Complete _ _ w) as [w1 ro] eqn:Hc.
  destruct (role_Complete_pure _ _ _ _ _ Hc) as [-> Hok].
  destruct ro as [o1|e|]; [|intros [= <- _] Hne; contradiction..].
  destruct (Hok o1 eq_refl) as (Hargs & Hname & Hne & Hv & _ & Hrs & _).
  unfold check at 1. destruct (Validate o1) eqn:Hval.
  { intros [= <- _] Hcalls. contradiction. }
  intros _ _. apply role_Validate_None in Hval as (Hlen & Hv0 & Hrs0).
  rewrite Hargs in Hlen. rewrite Hv in Hv0. rewrite Hrs in Hrs0.
  simpl in Hv0, Hrs0, Hname.
  destruct (positional cl) as [|a [|]]; try discriminate.
  simpl in Hname. rewrite Hname in Hne.
  destruct (verbs cl) as [v|]; [|contradiction].
  destruct (resources cl) as [rs|]; [|contradiction].
  exists a, v, rs. repeat split; assumption.
Qed.

(** The scenario of the specification sends requests. *)
Lemma role_requests_only_when_valid_witness :
  ∃ a v rs,
    positional Scenario.add_configmaps = [a] ∧ a ≠ ""
    ∧ verbs Scenario.add_configmaps = Some v ∧ v ≠ ""
    ∧ resources Scenario.add_configmaps = Some rs ∧ rs ≠ "".
Proof.
  apply (role_requests_only_when_valid Scenario.kube Scenario.add_configmaps
           Scenario.roles
           (NewCmdEdit Scenario.kube Scenario.add_configmaps Scenario.roles).1
           (NewCmdEdit Scenario.kube Scenario.add_configmaps Scenario.roles).2).
  - apply surjective_pairing.
  - vm_compute. discriminate.
Defined.

(** X8.  However the other clients interfere and however the run ends,
    the ClusterRole editor sends at most ten requests (five reads, five
    writes), every one of them a read or a write of the role named by
    the first argument; and a well-keyed store stays well keyed. *)
Theorem role_requests_bounded kube cl w w' r :
  well_keyed (objects w) →
  NewCmdEdit kube cl w = (w', r) →
  well_keyed (objects w')
  ∧ ∃ l,
      calls w' = calls w ++ l
      ∧ Forall (about NamespaceNone (hd "" (positional cl))) l
      ∧ (length l ≤ 10)%nat.
Proof.
  intros Hwk. unfold NewCmdEdit, RunE, bind.
  destruct (Complete _ _ w) as [w1 ro] eqn:Hc.
  destruct (role_Complete_pure _ _ _ _ _ Hc) as [-> Hok].
  assert (Hnone : well_keyed (objects w) ∧ ∃ l : list Call,
            calls w = calls w ++ l
            ∧ Forall (about NamespaceNone (hd "" (positional cl))) l
            ∧ (length l ≤ 10)%nat).
  { split; [exact Hwk|]. exists []. rewrite app_nil_r.
    repeat split; [constructor|simpl; lia]. }
  destruct ro as [o1|e|]; [|intros [= <- _]; exact Hnone..].
  destruct (Hok o1 eq_refl) as (_ & Hname & _ & _ & _ & _ & Hcl).
  unfold check at 1. destruct (Validate o1).
  { intros [= <- _]. exact Hnone. }
  rewrite (role_Run_shape _ _ _ Hcl). unfold check.
  destruct (Updater.run _ _ _ w) as [w2 r2] eqn:Hrun. intros Hr.
  assert (w2 = w') as -> by (destruct r2; congruence).
  simpl in Hname. rewrite <- Hname.
  exact (run_requests ClusterRole_meta_with_meta NamespaceNone (clusterRoleName o1)
           (mutate o1) (role_mutate_meta o1) w w' r2 Hwk Hrun).
Qed.

(** Two lost races and a write that lands: six requests. *)
Lemma role_requests_bounded_witness :
  ∃ l,
    calls (NewCmdEdit Scenario.kube Scenario.add_configmaps Drift.roles_contended).1
      = calls Drift.roles_contended ++ l
    ∧ Forall (about NamespaceNone "viewer") l
    ∧ (length l ≤ 10)%nat.
Proof.
  apply (role_requests_bounded Scenario.kube Scenario.add_configmaps
           Drift.roles_contended
           (NewCmdEdit Scenario.kube Scenario.add_configmaps Drift.roles_contended).1
           (NewCmdEdit Scenario.kube Scenario.add_configmaps Drift.roles_contended).2).
  - apply role_well_keyed_singleton; reflexivity.
  - apply surjective_pairing.
Defined.

(** X9.  A run of the ClusterRole editor that does not end in success
    has written nothing: the store holds what the events of the other
    clients alone made of it during the requests the run sent. *)
Theorem role_failure_writes_nothing kube cl w w' r :
  NewCmdEdit kube cl w = (w', r) →
  r ≠ Ok tt →
  idle w w'.
Proof.
  unfold NewCmdEdit, RunE, bind.
  destruct (Complete _ _ w) as [w1 ro] eqn:Hc.
  destruct (role_Complete_pure _ _ _ _ _ Hc) as [-> Hok].
  destruct ro as [o1|e|]; [|intros [= <- _] _; apply idle_refl..].
  destruct (Hok o1 eq_refl) as (_ & _ & _ & _ & _ & _ & Hcl).
  unfold check at 1. destruct (Validate o1).
  { intros [= <- _] _. apply idle_refl. }
  rewrite (role_Run_shape _ _ _ Hcl). unfold check.
  destruct (Updater.run _ _ _ w) as [w2 [e|]] eqn:Hrun.
  - intros [= <- <-] _. exact (run_error_idle _ _ _ _ _ _ Hrun).
  - intros [= <- <-] Hne. exfalso. apply Hne. reflexivity.
Qed.

(** edit-cr editor --verbs=get --resources=pods where only [viewer]
    exists. *)
Lemma role_failure_writes_nothing_witness :
  idle Scenario.roles
    (NewCmdEdit Scenario.kube Drift.add_to_editor Scenario.roles).1.
Proof.
  apply (role_failure_writes_nothing Scenario.kube Drift.add_to_editor
           Scenario.roles _
           (NewCmdEdit Scenario.kube Drift.add_to_editor Scenario.roles).2).
  - apply surjective_pairing.
  - vm_compute. discriminate.
Defined.

(** X10.  In a quiet cluster, for a valid command line naming a role
    that is not stored, the run fails after its one read with the text
    "update failed: failed to get latest version fo Deployment: ..."
    around the server's not-found error; the error returned is a plain
    one, which [errors.IsNotFound] no longer recognises. *)
Theorem missing_role kube cl w a v rs :
  quiet w →
  positional cl = [a] → a ≠ "" →
  Genericclioptions.restConfig kube = None →
  Genericclioptions.newForConfig kube = None →
  verbs cl = Some v → v ≠ "" →
  resources cl = Some rs → rs ≠ "" →
  objects w !! (NamespaceNone, a) = None →
  ∃ e,
    IsNotFound e = true
    ∧ NewCmdEdit kube cl w =
        ({| objects := objects w; pending := [];
            calls := calls w ++ [CallGet NamespaceNone a] |},
         Err (errorString
                ("update failed: failed to get latest version fo Deployment: "
                 +:+ Error e)))
    ∧ IsNotFound
        (errorString ("update failed: failed to get latest version fo Deployment: "
                      +:+ Error e)) = false.
Proof.
  intros Hq Hpos Ha Hrest Hnew Hv Hv0 Hrs Hrs0 Hr.
  exists (StatusError StatusReasonNotFound (a +:+ " not found")).
  split; [reflexivity|]. split; [|reflexivity].
  apply len_nonzero in Ha, Hv0, Hrs0.
  unfold NewCmdEdit, RunE, bind, Complete, pure, call, Genericclioptions.ToRESTConfig,
    Genericclioptions.NewForConfig.
  rewrite Hpos. simpl. rewrite Ha, Hrest, Hnew. unfold ret at 1.
  unfold check at 1, Validate. simpl. rewrite Hv, Hrs. simpl. rewrite Hv0, Hrs0.
  erewrite role_Run_shape by reflexivity. unfold check. cbn [clusterRoleName].
  rewrite (run_quiet_missing NamespaceNone a _ w Hq Hr).
  reflexivity.
Qed.

(** edit-cr editor --verbs=get --resources=pods where only [viewer]
    exists. *)
Lemma missing_role_witness :
  ∃ e,
    IsNotFound e = true
    ∧ NewCmdEdit Scenario.kube Drift.add_to_editor Scenario.roles =
        ({| objects := objects Scenario.roles; pending := [];
            calls := [CallGet NamespaceNone "editor"] |},
         Err (errorString
                ("update failed: failed to get latest version fo Deployment: "
                 +:+ Error e)))
    ∧ IsNotFound
        (errorString ("update failed: failed to get latest version fo Deployment: "
                      +:+ Error e)) = false.
Proof.
  apply (missing_role Scenario.kube Drift.add_to_editor Scenario.roles
           "editor" "get" "pods"); try reflexivity; discriminate.
Defined.


(** X11.  After any number of lost races that the policy still allows,
    once the cluster is quiet the next attempt lands: [Run] ends in
    success and the role holds the rules the winners left, in their
    order, followed by the new rule. *)
Theorem rule_appended_after_conflicts o c k w wk last r :
  clusterRoleInterface o = Some c →
  retried IsConflict (attempt o) k w wk last →
  (k < Steps DefaultRetry)%nat →
  quiet wk →
  objects wk !! (NamespaceNone, clusterRoleName o) = Some r →
  Name (ObjectMeta r) = clusterRoleName o →
  ∃ w' r',
    Run o w = (w', Ok tt)
    ∧ calls w' = calls wk ++ [CallGet NamespaceNone (clusterRoleName o);
                              CallUpdate NamespaceNone (clusterRoleName o)]
    ∧ objects w' !! (NamespaceNone, clusterRoleName o) = Some r'
    ∧ Rules r' = Rules r ++ [newRule o].
Proof.
  intros Hcl Hr Hk Hq Hobj Hname.
  rewrite role_attempt_shape in Hr.
  pose proof (Get_quiet NamespaceNone (clusterRoleName o) wk Hq) as Hg.
  rewrite Hobj in Hg.
  assert (Hname' : Name (meta (mutate o r)) = clusterRoleName o) by exact Hname.
  destruct (Update_quiet NamespaceNone (mutate o r) r
              {| objects := objects wk; pending := [];
                 calls := calls wk ++ [CallGet NamespaceNone (clusterRoleName o)] |})
    as [y Hu]; [reflexivity|simpl; rewrite Hname; exact Hobj|reflexivity|].
  eexists _, _. split; [|split; [|split]].
  - rewrite (role_Run_shape _ _ _ Hcl). unfold check.
    rewrite (run_persist_ok _ _ _ k w wk last _ r _ y Hr Hk Hg Hu). reflexivity.
  - simpl. rewrite Hname, <- app_assoc. reflexivity.
  - simpl. rewrite Hname. apply role_stored_lookup.
  - reflexivity.
Qed.

(** Two rivals each add a rule to [viewer] while the program is between
    its read and its write; the third attempt adds the program's rule
    after theirs. *)
Lemma rule_appended_after_conflicts_witness :
  let o := {| configFlags := Scenario.kube; clusterRoleInterface := Some tt;
              newVerbs := "list,watch"; newApiGroups := "";
              newResources := "configmaps"; clusterRoleName := "viewer";
              args := ["viewer"] |} in
  ∃ w' r',
    Run o Drift.roles_contended = (w', Ok tt)
    ∧ objects w' !! (NamespaceNone, "viewer") = Some r'
    ∧ Rules r' =
        [ {| Verbs := ["get"]; APIGroups := [""]; Resources := ["pods"] |};
          Drift.rival_rule; Drift.rival_rule;
          {| Verbs := ["list"; "watch"]; APIGroups := [""];
             Resources := ["configmaps"] |} ].
Proof.
  intros o.
  pose (wk := match retry_run IsConflict (attempt o) 2 Drift.roles_contended with
              | Some (w1, _) => w1
              | None => Drift.roles_contended
              end).
  destruct (rule_appended_after_conflicts o tt 2 Drift.roles_contended wk
              (Some (StatusError StatusReasonConflict conflict_message))
              {| ObjectMeta := {| Name := "viewer"; Namespace := "";
                                  ResourceVersion := 5 |};
                 Rules := Rules Scenario.viewer
                          ++ [Drift.rival_rule; Drift.rival_rule] |})
    as (w' & r' & HR & _ & Hobj & Hrules).
  - reflexivity.
  - apply retry_run_retried. vm_compute. reflexivity.
  - simpl. lia.
  - reflexivity.
  - vm_compute. reflexivity.
  - reflexivity.
  - exists w', r'. split; [exact HR|]. split; [exact Hobj|]. rewrite Hrules.
    reflexivity.
Defined.

Lemma Split_cons_inv s sep : ∃ piece pieces, Split s sep = piece :: pieces.
Proof.
  pose proof (Split_nonempty s sep). destruct (Split s sep); [contradiction|eauto].
Qed.

(** Joining the pieces with the separator gives the string back. *)
Lemma Split_concat s sep :
  String.concat (String sep EmptyString) (Split s sep) = s.
Proof.
  induction s as [|c s IH]; simpl; [reflexivity|].
  destruct (Ascii.eqb_spec c sep) as [->|Hne].
  - destruct (Split_cons_inv s sep) as (piece & pieces & Hs).
    rewrite Hs in *.
    change (String.concat (String sep "") ("" :: piece :: pieces))
      with (String sep (String.concat (String sep "") (piece :: pieces))).
    rewrite IH. reflexivity.
  - destruct (Split_cons_inv s sep) as (piece & pieces & Hs).
    rewrite Hs in *. destruct pieces as [|p ps].
    + simpl in *. rewrite IH. reflexivity.
    + change (String.concat (String sep "") (String c piece :: p :: ps))
        with (String c (String.concat (String sep "") (piece :: p :: ps))).
      rewrite IH. reflexivity.
Qed.

(** No piece holds the separator. *)
Lemma Split_no_sep s sep :
  Forall (fun piece => ¬ In sep (list_ascii_of_string piece)) (Split s sep).
Proof.
  induction s as [|c s IH]; simpl.
  - constructor; [intros []|constructor].
  - destruct (Ascii.eqb_spec c sep) as [->|Hne].
    + constructor; [intros []|exact IH].
    + destruct (Split s sep) as [|piece pieces]; [constructor; [|constructor]|].
      * simpl. intros [?|[]]. contradiction.
      * inversion IH as [|? ? Hp Hps]; subst. constructor; [|exact Hps].
        simpl. intros [?|?]; contradiction.
Qed.

(** X12.  The three lists of the rule the editor builds spell the flags
    they come from: joined by commas each list gives its flag back, and
    no entry holds a comma. *)
Theorem rule_lists_round_trip o :
  String.concat "," (Verbs (newRule o)) = newVerbs o
  ∧ String.concat "," (Resources (newRule o)) = newResources o
  ∧ String.concat "," (APIGroups (newRule o)) = newApiGroups o
  ∧ Forall (fun piece => ¬ In ","%char (list_ascii_of_string piece))
      (Verbs (newRule o) ++ Resources (newRule o) ++ APIGroups (newRule o)).
Proof.
  unfold newRule. simpl. repeat split; try apply Split_concat.
  rewrite !Forall_app. repeat split; apply Split_no_sep.
Qed.

End EditCRMore.

(** ** More on src/unnamed/part_001 *)

Module Part001More.
Import Apps Exec Retry Cobra Requests Part001.
Import ClusterFacts RetryFacts UpdaterFacts Part001Facts.
Import LoopInvariants UpdaterInvariants.

Lemma first_mutate_meta o d : meta (mutate o d) = meta d.
Proof. reflexivity. Qed.

Lemma first_attempt_shape ns o :
  attempt ns o = Updater.attempt ns (deploymentName o) (mutate o).
Proof. reflexivity. Qed.

(** X13.  The first generation sends a request only for a command line
    that passes all its checks: whenever anything was sent, there was
    exactly one argument, not empty, and --replicas was given and
    positive. *)
Theorem first_requests_only_when_valid kube cl w w' r :
  NewCmdEdit kube cl w = (w', r) →
  calls w' ≠ calls w →
  ∃ a N, positional cl = [a] ∧ a ≠ "" ∧ replicas cl = Some N ∧ 0 < N.
Proof.
  unfold NewCmdEdit, RunE, bind, Complete.
  destruct (positional cl) as [|a rest]; simpl.
  { intros [= <- _] Hne. contradiction. }
  destruct (len a =? 0) eqn:Hlen; simpl.
  { intros [= <- _] Hne. contradiction. }
  unfold Validate. cbn [args length Nat.eqb negb newReplicas].
  destruct rest as [|b rest]; cbn [length Nat.eqb negb].
  2: { intros [= <- _] Hne. contradiction. }
  destruct (replicas cl) as [N|]; simpl.
  2: { intros [= <- _] Hne. contradiction. }
  destruct (Z.leb_spec N 0).
  { intros [= <- _] Hne. contradiction. }
  intros _ _. exists a, N. apply len_nonzero in Hlen. repeat split; assumption.
Qed.

(** edit-deploy web --replicas=5 sends requests. *)
Lemma first_requests_only_when_valid_witness :
  ∃ a N, positional Drift.scale_to_5_first = [a] ∧ a ≠ ""
         ∧ replicas Drift.scale_to_5_first = Some N ∧ 0 < N.
Proof.
  apply (first_requests_only_when_valid Scenario.kube Drift.scale_to_5_first
           Scenario.cluster
           (NewCmdEdit Scenario.kube Drift.scale_to_5_first Scenario.cluster).1
           (NewCmdEdit Scenario.kube Drift.scale_to_5_first Scenario.cluster).2).
  - apply surjective_pairing.
  - vm_compute. discriminate.
Defined.

(** [Run] with its preliminaries done. *)
Lemma first_Run_loop o raw ns w :
  deploymentName o ≠ "" → 0 < newReplicas o →
  Genericclioptions.restConfig (configFlags o) = None →
  Genericclioptions.rawConfig (configFlags o) = inr raw →
  Genericclioptions.newForConfig (configFlags o) = None →
  (userSpecifiedNamespace o raw w).2 = Ok ns →
  Run o w = check (Updater.run ns (deploymentName o) (mutate o)) w.
Proof.
  intros Hname Hn Hrest Hraw Hnew Hns. unfold Run.
  assert (Hl : (0 <? len (deploymentName o)) = true).
  { apply Z.ltb_lt. unfold len. destruct (deploymentName o); [done|simpl; lia]. }
  assert (Hn' : (0 <? newReplicas o) = true) by (apply Z.ltb_lt; lia).
  rewrite Hl, Hn'. simpl.
  unfold bind, pure, call, Genericclioptions.ToRESTConfig,
    Genericclioptions.RawConfig, Genericclioptions.NewForConfig.
  rewrite Hrest, Hraw, Hnew.
  rewrite (first_userSpecifiedNamespace_Ok _ _ _ _ Hns w).
  reflexivity.
Qed.

(** X14.  In the first generation [Run] assigns the replica count only:
    after any number of lost races that the policy still allows, once
    the cluster is quiet the next attempt lands and leaves stored the
    new replica count together with the limit the winners left. *)
Theorem first_limit_survives o raw ns k w wk last d :
  deploymentName o ≠ "" → 0 < newReplicas o →
  Genericclioptions.restConfig (configFlags o) = None →
  Genericclioptions.rawConfig (configFlags o) = inr raw →
  Genericclioptions.newForConfig (configFlags o) = None →
  (userSpecifiedNamespace o raw w).2 = Ok ns →
  retried IsConflict (attempt ns o) k w wk last →
  (k < Steps DefaultRetry)%nat →
  quiet wk →
  objects wk !! (ns, deploymentName o) = Some d →
  Name (ObjectMeta d) = deploymentName o →
  ∃ w' d',
    Run o w = (w', Ok tt)
    ∧ objects w' !! (ns, deploymentName o) = Some d'
    ∧ Spec d' = {| Replicas := Some (newReplicas o);
                   RevisionHistoryLimit := RevisionHistoryLimit (Spec d) |}.
Proof.
  intros Hname Hn Hrest Hraw Hnew Hns Hr Hk Hq Hobj Hd.
  rewrite first_attempt_shape in Hr.
  pose proof (Get_quiet ns (deploymentName o) wk Hq) as Hg. rewrite Hobj in Hg.
  destruct (Update_quiet ns (mutate o d) d
              {| objects := objects wk; pending := [];
                 calls := calls wk ++ [CallGet ns (deploymentName o)] |})
    as [y Hu]; [reflexivity|simpl; rewrite Hd; exact Hobj|reflexivity|].
  eexists _, _. split; [|split].
  - rewrite (first_Run_loop o raw ns w Hname Hn Hrest Hraw Hnew Hns). unfold check.
    rewrite (run_persist_ok _ _ _ k w wk last _ d _ y Hr Hk Hg Hu). reflexivity.
  - simpl. rewrite Hd. unfold store. apply lookup_insert_eq.
  - reflexivity.
Qed.

(** Another client raises the limit of [web] to 20 between the read and
    the write of the first attempt: the second attempt stores 5 replicas
    and leaves the 20. *)
Lemma first_limit_survives_witness :
  let o := {| configFlags := Scenario.kube; newReplicas := 5;
              deploymentName := "web"; args := ["web"] |} in
  ∃ w' d',
    Run o Drift.limit_raised = (w', Ok tt)
    ∧ objects w' !! ("team-a", "web") = Some d'
    ∧ Spec d' = {| Replicas := Some 5; RevisionHistoryLimit := Some 20 |}.
Proof.
  intros o.
  pose (wk := match retry_run IsConflict (attempt "team-a" o) 1 Drift.limit_raised with
              | Some (w1, _) => w1
              | None => Drift.limit_raised
              end).
  apply (first_limit_survives o
           {| Clientcmd.Contexts := {[ "dev" := {| Clientcmd.Namespace := "team-a" |} ]};
              Clientcmd.CurrentContext := "dev" |}
           "team-a" 1 Drift.limit_raised wk
           (Some (StatusError StatusReasonConflict conflict_message))
           {| ObjectMeta := {| Name := "web"; Namespace := "team-a";
                               ResourceVersion := 8 |};
              Spec := {| Replicas := Some 3; RevisionHistoryLimit := Some 20 |} |});
    try reflexivity.
  - discriminate.
  - apply retry_run_retried. vm_compute. reflexivity.
  - simpl. lia.
Defined.


(** X15.  Without a --namespace flag the first generation addresses the
    namespace the current context names, whatever it is: when the
    context names none, the requests go to the empty namespace; there is
    no fallback.  The run of a valid command line starts with a read in
    that namespace, and every later request is about the same object
    there. *)
Theorem first_no_fallback kube cl w w' r raw context a N :
  well_keyed (objects w) →
  positional cl = [a] → a ≠ "" →
  replicas cl = Some N → 0 < N →
  Genericclioptions.restConfig kube = None →
  Genericclioptions.rawConfig kube = inr raw →
  Genericclioptions.newForConfig kube = None →
  Genericclioptions.Namespace (configFlags (parsed kube cl)) = "" →
  Clientcmd.Contexts raw !! Clientcmd.CurrentContext raw = Some context →
  NewCmdEdit kube cl w = (w', r) →
  ∃ l,
    calls w' = calls w ++ CallGet (Clientcmd.Namespace context) a :: l
    ∧ Forall (about (Clientcmd.Namespace context) a) l.
Proof.
  intros Hwk Hpos Ha HN HN0 Hrest Hraw Hnew Hflag Hctx.
  pose proof Ha as Hlen. apply len_nonzero in Hlen.
  unfold NewCmdEdit, RunE, bind, Complete. rewrite Hpos. simpl.
  rewrite Hlen. unfold ret at 1. unfold check at 1, Validate. simpl.
  rewrite HN. simpl. destruct (Z.leb_spec N 0) as [|_]; [lia|].
  match goal with
  | |- context [Run ?o' w] =>
      rewrite (first_Run_loop o' raw (Clientcmd.Namespace context) w)
  end; try assumption.
  - unfold check. simpl.
    match goal with
    | |- context [Updater.run ?ns ?n (mutate ?o') w] =>
        destruct (Updater.run ns n (mutate o') w) as [w2 r2] eqn:Hrun;
        pose proof (run_first_read AppsFacts.Deployment_meta_with_meta ns n
                      (mutate o') (first_mutate_meta o') w w2 r2 Hwk Hrun) as Hfirst
    end.
    intros Hr. assert (w2 = w') as -> by (destruct r2; congruence).
    exact Hfirst.
  - unfold userSpecifiedNamespace, bind, deref, ret. simpl in Hflag.
    simpl. rewrite Hflag, Hctx. reflexivity.
Qed.

(** edit-deploy web --replicas=5 with a context that names no namespace:
    [web] is looked for in the empty namespace. *)
Lemma first_no_fallback_witness :
  ∃ l,
    calls (NewCmdEdit Scenario.kube_bare Drift.scale_to_5_first
             Scenario.cluster_default).1
      = calls Scenario.cluster_default ++ CallGet "" "web" :: l
    ∧ Forall (about "" "web") l.
Proof.
  apply (first_no_fallback Scenario.kube_bare Drift.scale_to_5_first
           Scenario.cluster_default _
           (NewCmdEdit Scenario.kube_bare Drift.scale_to_5_first
              Scenario.cluster_default).2
           {| Clientcmd.Contexts := {[ "dev" := {| Clientcmd.Namespace := "" |} ]};
              Clientcmd.CurrentContext := "dev" |}
           {| Clientcmd.Namespace := "" |} "web" 5);
    first [ apply AppsFacts.well_keyed_singleton; reflexivity
          | discriminate
          | lia
          | apply surjective_pairing
          | reflexivity ].
Defined.

End Part001More.

(** ** More on src/unnamed/part_000 *)

Module Part000More.
Import Apps Exec Retry Cobra Part000 ClusterFacts Part000Facts.

(** X16.  As [main] starts it, the second generation changes no stored
    replica count and no stored limit in a quiet cluster, whatever the
    command line says and however the run ends: [isFlagPassed] finds no
    flag, so [Complete] replaces both values by the live ones and [Run]
    writes the live replica count back. *)
Theorem second_generation_changes_nothing kube cl w w' status :
  quiet w → well_keyed (objects w) →
  main kube cl w = (w', status) →
  ∀ k d, objects w !! k = Some d →
    ∃ d', objects w' !! k = Some d' ∧ Spec d' = Spec d.
Proof.
  intros Hq Hwk. unfold main.
  destruct (NewCmdEdit _ kube cl w) as [w1 r] eqn:HE. intros [= <- _].
  exact (specs_unchanged _ _ _ _ _ _ Hq Hwk HE).
Qed.

(** edit-deploy web --replicas=5 --rhl=2 on [web] with 3 and 10. *)
Lemma second_generation_changes_nothing_witness :
  ∃ d',
    objects (main Scenario.kube
               {| positional := ["web"]; replicas := Some 5; rhl := Some 2;
                  namespace := None |} Scenario.cluster).1
      !! ("team-a", "web") = Some d'
    ∧ Spec d' = {| Replicas := Some 3; RevisionHistoryLimit := Some 10 |}.
Proof.
  apply (second_generation_changes_nothing Scenario.kube
           {| positional := ["web"]; replicas := Some 5; rhl := Some 2;
              namespace := None |} Scenario.cluster _ _
           eq_refl
           (AppsFacts.well_keyed_singleton "team-a" "web" Scenario.web
              eq_refl eq_refl)
           (surjective_pairing _)
           ("team-a", "web") Scenario.web eq_refl).
Defined.

End Part000More.
